(** * Verification of the job-posting extraction pipeline of Appication_Tracker

    Shallow embedding of [api/scrape-advanced.ts] (the advanced scrape
    endpoint: fetch, targeted/specialized extraction, normalizer, enhancer)
    and of [SpecializedScraper.getSiteConfig].

    JavaScript strings are sequences of UTF-16 code units, modelled as
    [list N]; [length] is [String.prototype.length].  Every regular
    expression of the source used with [String.prototype.replace] and the
    [g] flag is modelled by a [matcher] (the regex tried at one position of
    the input, with the code unit before that position for [\b]), and by
    [replace], the JavaScript left-to-right global replacement loop. *)

From Stdlib Require Import String Ascii.
From Stdlib Require Import List Bool Arith Lia NArith ZArith.
Import ListNotations.

Open Scope list_scope.

(** ** Code units and character classes *)

Definition str := list N.

(** A Rocq ASCII string literal as a JavaScript string. *)
Definition u (s : string) : str := map N_of_ascii (list_ascii_of_string s).

(** [\s] of JavaScript regular expressions (WhiteSpace and LineTerminator);
    [String.prototype.trim] strips the same set. *)
Definition is_ws (c : N) : bool :=
  ((9 <=? c) && (c <=? 13))%N || (c =? 32)%N || (c =? 160)%N || (c =? 5760)%N
  || ((8192 <=? c) && (c <=? 8202))%N || (c =? 8232)%N || (c =? 8233)%N
  || (c =? 8239)%N || (c =? 8287)%N || (c =? 12288)%N || (c =? 65279)%N.

(** Line terminators: the code units that [.] does not match without the
    [s] flag. *)
Definition is_lt (c : N) : bool :=
  (c =? 10)%N || (c =? 13)%N || (c =? 8232)%N || (c =? 8233)%N.

(** [\w], used by [\b]: ASCII letters, digits and underscore (the source
    has no [u] flag). *)
Definition is_word (c : N) : bool :=
  ((48 <=? c) && (c <=? 57))%N || ((65 <=? c) && (c <=? 90))%N
  || ((97 <=? c) && (c <=? 122))%N || (c =? 95)%N.

(** Canonicalize of the [i] flag without [u]: simple upper case, except
    that a non-ASCII unit never maps to an ASCII one.  Exact on ASCII and
    Latin-1; other units are their own canonical form here, and no unit
    outside Latin-1 canonicalizes to a pattern character of the source
    (all of which are ASCII, U+00C2 or U+00A9). *)
Definition canon (c : N) : N :=
  if ((97 <=? c) && (c <=? 122))%N then (c - 32)%N
  else if ((224 <=? c) && (c <=? 254) && negb (c =? 247))%N then (c - 32)%N
  else if (c =? 181)%N then 924%N
  else if (c =? 255)%N then 376%N
  else c.

Definition ci_eq (a b : N) : bool := (canon a =? canon b)%N.

(** [s] starts with [p], code unit by code unit (case-sensitive). *)
Fixpoint starts (p s : str) : bool :=
  match p, s with
  | [], _ => true
  | a :: p', b :: s' => (a =? b)%N && starts p' s'
  | _ :: _, [] => false
  end.

(** [s] starts with [p] under the [i] flag. *)
Fixpoint starts_ci (p s : str) : bool :=
  match p, s with
  | [], _ => true
  | a :: p', b :: s' => ci_eq a b && starts_ci p' s'
  | _ :: _, [] => false
  end.

(** Index of the first occurrence of [p] in [s] (with a comparison). *)
Fixpoint find_with (st : str -> str -> bool) (p s : str) : option nat :=
  if st p s then Some 0 else
  match s with
  | [] => None
  | _ :: s' => option_map S (find_with st p s')
  end.

Definition find_cs := find_with starts.
Definition find_ci := find_with starts_ci.

(** [String.prototype.includes]. *)
Definition includes (s p : str) : bool :=
  match find_cs p s with Some _ => true | None => false end.

Fixpoint take_while (f : N -> bool) (s : str) : str :=
  match s with
  | c :: s' => if f c then c :: take_while f s' else []
  | [] => []
  end.

(** ** The global replacement loop *)

(** A regex tried at one position: the code unit before the position
    ([None] at the start of the input) and the rest of the input; on a
    match, the number of code units matched and the replacement text. *)
Definition matcher := option N -> str -> option (nat * str).

(** [s.replace(/re/g, r)]: scan left to right; after a match resume after
    it (after an empty match copy one code unit); [\b] looks at the
    original input, so the unit before the resume point is the last
    matched unit.  The fuel is the input length plus one, enough as every
    step consumes a code unit. *)
Fixpoint rep_go (m : matcher) (fuel : nat) (prev : option N) (s : str) : str :=
  match fuel with
  | O => s
  | S f =>
    match s with
    | [] => match m prev [] with Some (_, r) => r | None => [] end
    | c :: t =>
      match m prev s with
      | Some (O, r) => r ++ c :: rep_go m f (Some c) t
      | Some (S k, r) => r ++ rep_go m f (Some (nth k t c)) (skipn (S k) s)
      | None => c :: rep_go m f (Some c) t
      end
    end
  end.

Definition replace (m : matcher) (s : str) : str :=
  rep_go m (S (length s)) None s.

(** [String.prototype.trim]. *)
Fixpoint drop_ws (s : str) : str :=
  match s with
  | c :: s' => if is_ws c then drop_ws s' else s
  | [] => []
  end.

Definition trim (s : str) : str := rev (drop_ws (rev (drop_ws s))).

(** ** Regular expressions of [extractTextFromHtml] *)

(** The script regex of the source (spaces added here only to keep this
    comment well formed): [/<script\b[^<]* (?:(?!<\/script>)<[^<]* )* <\/script>/gi],
    and the same for style, replaced by the empty string: the body can take every unit
    but a [<] that starts the closing tag, so a match runs from [<script]
    (followed by a non-word unit) to the end of the first closing tag
    after it. *)
Definition m_block (op cl : str) : matcher := fun _ s =>
  if starts_ci op s then
    let t := skipn (length op) s in
    if match t with c :: _ => negb (is_word c) | [] => true end then
      match find_ci cl t with
      | Some j => Some (length op + j + length cl, [])
      | None => None
      end
    else None
  else None.

Definition m_script := m_block (u "<script") (u "</script>").
Definition m_style := m_block (u "<style") (u "</style>").

(** [/<!--[\s\S]*?-->/g] replaced by the empty string. *)
Definition m_comment : matcher := fun _ s =>
  if starts (u "<!--") s then
    match find_cs (u "-->") (skipn 4 s) with
    | Some j => Some (4 + j + 3, [])
    | None => None
    end
  else None.

(** [/<[^>]*>/g] replaced by a space. *)
Definition m_tag : matcher := fun _ s =>
  match s with
  | c :: t =>
    if (c =? 60)%N then
      match find_cs [62%N] t with
      | Some j => Some (2 + j, [32%N])
      | None => None
      end
    else None
  | [] => None
  end.

(** A fixed entity such as [/&amp;/g]. *)
Definition m_lit (p r : str) : matcher := fun _ s =>
  if starts p s then Some (length p, r) else None.

Definition is_hex (c : N) : bool :=
  ((48 <=? c) && (c <=? 57))%N || ((65 <=? c) && (c <=? 70))%N
  || ((97 <=? c) && (c <=? 102))%N.

Definition is_digit (c : N) : bool := ((48 <=? c) && (c <=? 57))%N.

Definition digit_val (c : N) : Z :=
  if is_digit c then Z.of_N (c - 48)
  else if ((65 <=? c) && (c <=? 70))%N then Z.of_N (c - 55)
  else Z.of_N (c - 87).

(** [parseInt(ds, base)] on a non-empty run of digits: the exact value. *)
Definition digits_value (base : Z) (ds : str) : Z :=
  fold_left (fun acc c => acc * base + digit_val c)%Z ds 0%Z.

(** The value rounded to a double (to nearest, ties to even); [None] for
    [Infinity]. *)
Definition round_double (v : Z) : option Z :=
  let k := (Z.log2 v + 1 - 53)%Z in
  if (k <=? 0)%Z then Some v else
  let q := Z.shiftr v k in
  let rem := (v - Z.shiftl q k)%Z in
  let half := Z.shiftl 1 (k - 1) in
  let q' := if (half <? rem)%Z then (q + 1)%Z
            else if (rem =? half)%Z then (if Z.odd q then (q + 1)%Z else q)
            else q in
  let r := Z.shiftl q' k in
  if (Z.pow 2 1024 <=? r)%Z then None else Some r.

(** [String.fromCharCode(n)]: ToUint16, with [Infinity] giving 0. *)
Definition from_char_code (n : option Z) : str :=
  match n with
  | None => [0%N]
  | Some v => [Z.to_N (v mod 65536)]
  end.

(** [/&#x([0-9A-Fa-f]+);/g] and [/&#(\d+);/g] with their replacement
    functions. *)
Definition m_num (pre : str) (isd : N -> bool) (base : Z) : matcher := fun _ s =>
  if starts pre s then
    let ds := take_while isd (skipn (length pre) s) in
    match ds, skipn (length pre + length ds) s with
    | _ :: _, c :: _ =>
      if (c =? 59)%N then
        Some (length pre + length ds + 1,
              from_char_code (round_double (digits_value base ds)))
      else None
    | _, _ => None
    end
  else None.

Definition m_hex := m_num (u "&#x") is_hex 16%Z.
Definition m_dec := m_num (u "&#") is_digit 10%Z.

(** [/\s+/g] replaced by a space. *)
Definition m_ws : matcher := fun _ s =>
  match take_while is_ws s with
  | [] => None
  | w => Some (length w, [32%N])
  end.

(** Index of the last [\n] in a list. *)
Fixpoint last_nl (i : nat) (w : str) (acc : option nat) : option nat :=
  match w with
  | [] => acc
  | c :: w' => last_nl (S i) w' (if (c =? 10)%N then Some i else acc)
  end.

(** [/\n\s*\n/g] replaced by [\n]: the greedy [\s*] gives back units until
    the last [\n] of the whitespace run. *)
Definition m_nl2 : matcher := fun _ s =>
  match s with
  | c :: t =>
    if (c =? 10)%N then
      match last_nl 0 (take_while is_ws t) None with
      | Some k => Some (k + 2, [10%N])
      | None => None
      end
    else None
  | [] => None
  end.

(** Chained [.replace] calls. *)
Definition replace_ms (ms : list matcher) (s : str) : str :=
  fold_left (fun acc m => replace m acc) ms s.

(** The entity decoding chain of [extractTextFromHtml], in source order. *)
Definition entity_decoders : list matcher :=
  [ m_lit (u "&nbsp;") (u " ");
    m_lit (u "&amp;") (u "&");
    m_lit (u "&lt;") (u "<");
    m_lit (u "&gt;") (u ">");
    m_lit (u "&quot;") [34%N];
    m_lit (u "&#39;") [39%N];
    m_lit (u "&apos;") [39%N];
    m_hex;
    m_dec ].

(** [extractTextFromHtml] (the body of its [try]). *)
Definition extractTextFromHtml (html : str) : str :=
  let s := replace m_script html in
  let s := replace m_style s in
  let s := replace m_comment s in
  let s := replace m_tag s in
  let s := replace_ms entity_decoders s in
  let s := replace m_ws s in
  let s := replace m_nl2 s in
  trim s.

(** ** Regular expressions of the enhancer and the cleaner *)

(** A regex atom: a literal code unit (compared under [i]) or [.]. *)
Inductive pel := PC (c : N) | PDot.
Definition pat := list pel.

(** A regex written as text, where [.] is the wildcard. *)
Definition pr (s : string) : pat :=
  map (fun a => if Ascii.eqb a "."%char then PDot else PC (N_of_ascii a))
      (list_ascii_of_string s).

Definition pel_ok (e : pel) (c : N) : bool :=
  match e with PC a => ci_eq a c | PDot => negb (is_lt c) end.

Fixpoint pmatch (p : pat) (s : str) : bool :=
  match p, s with
  | [], _ => true
  | e :: p', c :: s' => pel_ok e c && pmatch p' s'
  | _ :: _, [] => false
  end.

Definition wordy (c : option N) : bool :=
  match c with Some c => is_word c | None => false end.

(** [\b] between two positions given the units on each side. *)
Definition wb (a b : option N) : bool := xorb (wordy a) (wordy b).

(** [/\b(a1|a2|...)\b/gi] replaced by [r]: the alternatives are tried in
    order at each position, the closing [\b] included. *)
Fixpoint wb_alts (alts : list pat) (r s : str) : option (nat * str) :=
  match alts with
  | [] => None
  | a :: al =>
    if pmatch a s && wb (nth_error s (length a - 1)) (nth_error s (length a))
    then Some (length a, r) else wb_alts al r s
  end.

Definition m_wb (alts : list pat) (r : str) : matcher := fun prev s =>
  if wb prev (hd_error s) then wb_alts alts r s else None.

(** [/lit/gi] without word boundaries, replaced by the empty string. *)
Definition m_ci (p : pat) : matcher := fun _ s =>
  if pmatch p s then Some (length p, []) else None.

(** Last index [p <= n] at which [rights reserved] starts in [t]. *)
Fixpoint last_rr (t : str) (i n : nat) (acc : option nat) : option nat :=
  match n with
  | O => if pmatch (pr "rights reserved") t then Some i else acc
  | S n' =>
    let acc' := if pmatch (pr "rights reserved") t then Some i else acc in
    match t with
    | [] => acc'
    | _ :: t' => last_rr t' (S i) n' acc'
    end
  end.

(** [/Â©.*rights reserved/gi] (the source holds the two units U+00C2
    U+00A9): the greedy [.*] stays on one line and gives back units until
    the last [rights reserved] of that line. *)
Definition m_copyright : matcher := fun _ s =>
  if pmatch [PC 194%N; PC 169%N] s then
    let t := skipn 2 s in
    match last_rr t 0 (length (take_while (fun c => negb (is_lt c)) t)) None with
    | Some p => Some (2 + p + 15, [])
    | None => None
    end
  else None.

Fixpoint nl_positions (i : nat) (w : str) : list nat :=
  match w with
  | [] => []
  | c :: w' => if (c =? 10)%N then i :: nl_positions (S i) w' else nl_positions (S i) w'
  end.

(** [/\n\s*\n\s*\n/g] replaced by two [\n]: the match ends at the last
    [\n] of the whitespace run, which must hold two more [\n]. *)
Definition m_nl3 : matcher := fun _ s =>
  match s with
  | c :: t =>
    if (c =? 10)%N then
      match rev (nl_positions 0 (take_while is_ws t)) with
      | k :: _ :: _ => Some (k + 2, [10%N; 10%N])
      | _ => None
      end
    else None
  | [] => None
  end.

Definition nl2 : str := [10%N; 10%N].

(** The regexes of [enhanceJobContent] and [cleanJobContent], as data. *)
Inductive regex :=
| RWb (alts : list pat) (r : str)   (* [/\b(alts)\b/gi] replaced by [r] *)
| RCi (p : pat)                     (* [/p/gi] removed *)
| RCopyright                        (* [/Â©.*rights reserved/gi] removed *)
| RNl3.                             (* [/\n\s*\n\s*\n/g] replaced by two [\n] *)

Definition rx (e : regex) : matcher :=
  match e with
  | RWb alts r => m_wb alts r
  | RCi p => m_ci p
  | RCopyright => m_copyright
  | RNl3 => m_nl3
  end.

(** Chained [.replace] calls. *)
Definition replace_rx (es : list regex) (s : str) : str :=
  fold_left (fun acc e => replace (rx e) acc) es s.

(** The five section-header rewrites shared by both functions. *)
Definition header_regexes : list regex :=
  [ RWb [pr "job description"; pr "description"; pr "overview"]
        (nl2 ++ u "Job Description:");
    RWb [pr "responsibilities"; pr "duties"; pr "what you.ll do"]
        (nl2 ++ u "Responsibilities:");
    RWb [pr "requirements"; pr "qualifications"; pr "what we.re looking for"]
        (nl2 ++ u "Requirements:");
    RWb [pr "benefits"; pr "perks"; pr "what we offer"]
        (nl2 ++ u "Benefits:");
    RWb [pr "about us"; pr "about the company"; pr "company overview"]
        (nl2 ++ u "About the Company:") ].

(** The seven artifact removals of [enhanceJobContent]. *)
Definition enhance_noise : list regex :=
  map (fun p => RWb [pr p] [])
      ["Apply now"; "Share this job"; "Save job"; "Back to search";
       "View all jobs"; "Cookie policy"; "Privacy policy"]%string.

(** [enhanceJobContent(content, hostname)] (its [try] never throws on
    strings). *)
Definition enhanceJobContent (content hostname : str) : str :=
  let enhanced := u "Source: " ++ hostname ++ nl2 ++ content in
  replace_rx (enhance_noise ++ header_regexes) enhanced.

(** [String.prototype.toLowerCase]: exact on ASCII and on the two
    non-ASCII units whose lower case holds ASCII letters (U+212A KELVIN
    SIGN and U+0130); other units are kept (their lower case is non-ASCII,
    which does not change a search for an ASCII name). *)
Definition lower_unit (c : N) : str :=
  if ((65 <=? c) && (c <=? 90))%N then [(c + 32)%N]
  else if (c =? 8490)%N then [107%N]
  else if (c =? 304)%N then [105%N; 775%N]
  else [c].

Definition to_lower (s : str) : str := flat_map lower_unit s.

(** The nine noise patterns of [cleanJobContent]. *)
Definition clean_noise : list regex :=
  map (fun p => RCi (pr p))
      ["apply now"; "share this job"; "save job"; "back to search";
       "view all jobs"; "cookie policy"; "privacy policy";
       "terms of service"]%string
  ++ [RCopyright].

(** [cleanJobContent] after the company line has been decided. *)
Definition clean_tail (cleaned : str) : str :=
  trim (replace_rx (clean_noise ++ header_regexes ++ [RNl3]) cleaned).

(** The company name is already in the text (case-insensitively). *)
Definition company_present (cleaned company : str) : bool :=
  includes (to_lower cleaned) (to_lower company).

(** [cleanJobContent(content, company)]. *)
Definition cleanJobContent (content company : str) : str :=
  let cleaned := trim (replace m_ws content) in
  let cleaned := if negb (company_present cleaned company)
                 then u "Company: " ++ company ++ nl2 ++ cleaned
                 else cleaned in
  clean_tail cleaned.



(** ** Site registry *)

Record SiteConfig := {
  selectors : list str;
  removeSelectors : list str;
  company : str
}.

(** A selector literal: its single quotes stand for the double quotes of
    the source. *)
Definition uq (s : string) : str :=
  map (fun c => if (c =? 39)%N then 34%N else c) (u s).

Definition mk_config (sel rem : list string) (c : string) : SiteConfig :=
  {| selectors := map uq sel; removeSelectors := map uq rem; company := u c |}.

(** [SPECIALIZED_CONFIGS], in insertion order (the order of
    [Object.entries] for these non-index keys). *)
Definition SPECIALIZED_CONFIGS : list (str * SiteConfig) :=
  map (fun '(d, c) => (u d, c))
  [ ("jobs.apple.com", mk_config
      ["#jdp-job-description"; ".job-description-content"; ".jd-info"; ".job-summary"]
      [".apply-button"; ".share-job"; ".job-actions"; "nav"; "footer"] "Apple");
    ("careers.google.com", mk_config
      ["[data-section='description']"; ".job-description"; ".gc-job-detail__content"]
      [".gc-job-detail__apply"; ".gc-job-detail__share"; "nav"; "footer"] "Google");
    ("amazon.jobs", mk_config
      [".job-detail"; ".job-description"; "[data-test='job-description']"]
      [".apply-button-container"; ".job-alert"; "nav"; "footer"] "Amazon");
    ("careers.microsoft.com", mk_config
      [".job-description-container"; ".job-details";
       "[data-automation-id='jobPostingDescription']"]
      [".apply-section"; ".job-share"; "nav"; "footer"] "Microsoft");
    ("jobs.netflix.com", mk_config
      [".job-description"; ".job-posting-content"; ".position-content"]
      [".apply-now"; ".share-job"; "nav"; "footer"] "Netflix");
    ("careers.meta.com", mk_config
      ["[data-testid='job-description']"; ".job-description"; ".position-details"]
      [".apply-button"; ".job-share"; "nav"; "footer"] "Meta");
    ("jobs.lever.co", mk_config
      [".section-wrapper"; ".job-description"; ".content"]
      [".apply-button"; ".postings-share"; "nav"; "footer"] "Various (Lever)");
    ("boards.greenhouse.io", mk_config
      [".job-post-content"; ".application-details"; ".job-description"]
      [".application-form"; ".job-post-apply"; "nav"; "footer"] "Various (Greenhouse)");
    ("linkedin.com/jobs", mk_config
      [".jobs-description-content__text"; ".jobs-box__html-content"; ".job-details"]
      [".jobs-apply-button"; ".jobs-save-button"; ".jobs-share"; "nav"; "footer"]
      "Various (LinkedIn)");
    ("indeed.com", mk_config
      [".jobsearch-jobDescriptionText"; ".jobsearch-JobComponent-description";
       "#jobDescriptionText"]
      [".jobsearch-IndeedApplyButton"; ".jobsearch-JobMetadataFooter"; "nav"; "footer"]
      "Various (Indeed)");
    ("glassdoor.com", mk_config
      [".jobDescriptionContent"; ".desc"; ".job-description-content"]
      [".apply-btn"; ".job-actions"; "nav"; "footer"] "Various (Glassdoor)");
    ("wellfound.com", mk_config
      [".job-description"; ".startup-job-listing"; ".job-content"]
      [".apply-button"; ".job-share"; "nav"; "footer"] "Various (Wellfound)")
  ]%string.

(** [siteSelectors], the fallback table of [targetedScrape]. *)
Definition siteSelectors : list (str * list str) :=
  map (fun '(d, l) => (u d, map uq l))
  [ ("linkedin.com", [".jobs-description-content__text"; ".jobs-box__html-content";
                      ".job-details"; ".jobs-description"]);
    ("indeed.com", [".jobsearch-jobDescriptionText"; ".jobsearch-JobComponent-description";
                    "#jobDescriptionText"; ".job-description"]);
    ("glassdoor.com", [".jobDescriptionContent"; ".desc"; ".job-description-content";
                       ".jobDesc"]);
    ("lever.co", [".section-wrapper"; ".job-description"; ".content"]);
    ("greenhouse.io", [".job-post-content"; ".application-details"; ".job-description"]);
    ("workday.com", ["[data-automation-id='jobPostingDescription']";
                     ".jobPostingDescription"; ".job-description"]);
    ("bamboohr.com", [".job-description"; ".BambooHR-ATS-Description"])
  ]%string.

(** [s.replace(p, r)] with a string pattern: the first occurrence only. *)
Definition replace_first (p r s : str) : str :=
  match find_cs p s with
  | Some i => firstn i s ++ r ++ skipn (i + length p) s
  | None => s
  end.

(** The matching rule shared by [hasSpecializedScraper], the loop of
    [extractSpecializedContent] and [SpecializedScraper.getSiteConfig]:
    [hostname.includes(domain) || domain.includes(hostname.replace('www.', ''))]. *)
Definition site_matches (hostname domain : str) : bool :=
  includes hostname domain || includes domain (replace_first (u "www.") [] hostname).

(** The first registry entry, in registration order, whose fragment
    matches the (lower-cased) hostname. *)
Definition getSiteConfig (hostname : str) : option (str * SiteConfig) :=
  find (fun '(d, _) => site_matches hostname d) SPECIALIZED_CONFIGS.

(** [hasSpecializedScraper] of the handler. *)
Definition hasSpecializedScraper (hostname : str) : bool :=
  existsb (fun '(d, _) => site_matches hostname d) SPECIALIZED_CONFIGS.

(** ** Regex-based selector extraction *)

(** [[a-zA-Z0-9_-]]. *)
Definition is_cls (c : N) : bool := is_word c || (c =? 45)%N.

(** [selector.match(/\.([a-zA-Z0-9_-]+)/)] (and with [#]): group 1 of the
    leftmost match. *)
Fixpoint sel_name (mark : N) (s : str) : option str :=
  match s with
  | [] => None
  | c :: t =>
    if (c =? mark)%N then
      match take_while is_cls t with
      | [] => sel_name mark t
      | w => Some w
      end
    else sel_name mark t
  end.

(** The position of the first [</] that is followed, later, by a [>]. *)
Definition find_close (s : str) : option nat :=
  find_with (fun _ t => starts (u "</") t && includes (skipn 2 t) [62%N]) [] s.

(** [new RegExp(`<[^>]*ATTR[^>]*NAME[^>]*>(.*?)<\/[^>]*>`, 'gis')] tried
    at one position: the opening tag runs to the first [>]; inside it
    [ATTR] must occur with [NAME] after it (under [i]); group 1 is the text
    up to the first [</...>] after the tag. *)
Definition elem_at (attr nm s : str) : option str :=
  match s with
  | c :: t =>
    if (c =? 60)%N then
      match find_cs [62%N] t with
      | Some q =>
        let tag := firstn q t in
        let after := skipn (S q) t in
        match find_ci attr tag with
        | Some a =>
          match find_ci nm (skipn (a + length attr) tag) with
          | Some _ =>
            match find_close after with
            | Some r => Some (firstn r after)
            | None => None
            end
          | None => None
          end
        | None => None
        end
      | None => None
      end
    else None
  | [] => None
  end.

(** [regex.exec(html)] from index 0: group 1 of the leftmost match. *)
Fixpoint exec_elem (attr nm s : str) : option str :=
  match elem_at attr nm s with
  | Some g => Some g
  | None => match s with [] => None | _ :: s' => exec_elem attr nm s' end
  end.

(** One selector: the class attempt, then the id attempt; a capture is
    kept when its normalized text is longer than 200 units. *)
Definition try_attr (attr : str) (name : option str) (html : str) : option str :=
  match name with
  | Some nm =>
    match exec_elem attr nm html with
    | Some ((_ :: _) as g) =>
      let content := extractTextFromHtml g in
      if 200 <? length content then Some content else None
    | _ => None
    end
  | None => None
  end.

Definition try_selector (html sel : str) : option str :=
  match try_attr (u "class") (sel_name 46%N sel) html with
  | Some c => Some c
  | None => try_attr (u "id") (sel_name 35%N sel) html
  end.

(** The selector loop (stop at the first accepted selector). *)
Fixpoint first_selector (html : str) (sels : list str) : option str :=
  match sels with
  | [] => None
  | s :: ss => match try_selector html s with
               | Some c => Some c
               | None => first_selector html ss
               end
  end.

(** [extractTargetedContent(html, selectors)] (its [try] never throws). *)
Definition extractTargetedContent (html : str) (sels : list str) : option str :=
  first_selector html sels.



(** ** Exceptions and the network *)

Inductive js_error := AbortError | TypeError | HttpError (status : N).

Inductive result (A : Type) := Ok (a : A) | Err (e : js_error).
Arguments Ok {A} a.
Arguments Err {A} e.

(** Computations that may throw and that call the network: the state is
    the number of [fetch] calls made so far. *)
Definition M (A : Type) := nat -> result A * nat.

Definition ret {A} (a : A) : M A := fun n => (Ok a, n).
Definition throw {A} (e : js_error) : M A := fun n => (Err e, n).
Definition bind {A B} (m : M A) (k : A -> M B) : M B := fun n =>
  match m n with
  | (Ok a, n') => k a n'
  | (Err e, n') => (Err e, n')
  end.
Definition try_catch {A} (m : M A) (h : js_error -> M A) : M A := fun n =>
  match m n with
  | (Err e, n') => h e n'
  | r => r
  end.

Notation "x <- m ;; k" := (bind m (fun x => k))
  (at level 61, m at next level, right associativity).

(** What the [i]-th [fetch] call gives: a response (status and body
    text), the abort of [AbortSignal.timeout(20000)], or another transport
    failure. *)
Inductive FetchOutcome :=
| FetchOk (status : N) (body : str)
| FetchTimeout
| FetchNetworkError.

Definition str_eqb (a b : str) : bool :=
  if list_eq_dec N.eq_dec a b then true else false.

(** ** The endpoint *)

Record Body := { body_url : option str; body_strategy : option str }.
Record Request := { req_method : str; req_body : option Body }.

Inductive Payload :=
| PEmpty
| PError (error : str) (method : option str) (details : option str)
| PSuccess (content : str) (url : str) (contentLength : nat) (method : str)
           (hostname : str).

Record Response := { status : N; payload : Payload }.

Definition error_message (e : js_error) : str :=
  match e with
  | AbortError => u "This operation was aborted"
  | TypeError => u "Cannot destructure property of req.body"
  | HttpError _ => u "HTTP error"
  end.

Section Pipeline.

(** The network, and [new URL(url).hostname] ([None] when the
    constructor throws). *)
Variable net : nat -> FetchOutcome.
Variable parse_url : str -> option str.

Definition fetch (url : str) : M (N * str) := fun n =>
  (match net n with
   | FetchOk st b => Ok (st, b)
   | FetchTimeout => Err AbortError
   | FetchNetworkError => Err TypeError
   end, S n).

(** [basicScrape(url)]. *)
Definition basicScrape (url : str) : M (option str) :=
  try_catch
    (r <- fetch url ;;
     let '(st, body) := r in
     if (200 <=? st)%N && (st <=? 299)%N
     then ret (Some (extractTextFromHtml body))
     else throw (HttpError st))
    (fun _ => ret None).

(** The body of the [try] of [extractSpecializedContent(html, url)]. *)
Definition extractSpecializedContent_body (html url : str)
  : result (option (str * str)) :=
  match parse_url url with
  | None => Err TypeError
  | Some h =>
    match getSiteConfig (to_lower h) with
    | None => Ok None
    | Some (domain, config) =>
      let jobContent :=
        match first_selector html (selectors config) with
        | Some c => c
        | None => []
        end in
      if length jobContent <? 100 then Ok None
      else Ok (Some (cleanJobContent jobContent (company config),
                     u "specialized-" ++ domain))
    end
  end.

(** [extractSpecializedContent(html, url)]: the [catch] returns [null]. *)
Definition extractSpecializedContent (html url : str) : option (str * str) :=
  match extractSpecializedContent_body html url with
  | Ok r => r
  | Err _ => None
  end.

(** The end of [targetedScrape]: site selectors, then the whole text. *)
Definition targeted_fallback (html hostname : str) : str :=
  match find (fun '(d, _) => includes hostname d) siteSelectors with
  | Some (_, sels) =>
    match extractTargetedContent html sels with
    | Some t => if 200 <? length t then t else extractTextFromHtml html
    | None => extractTextFromHtml html
    end
  | None => extractTextFromHtml html
  end.

(** [targetedScrape(url, hostname)]: note that [html] is the value
    returned by [basicScrape]. *)
Definition targetedScrape (url hostname : str) : M (option str) :=
  try_catch
    (html <- basicScrape url ;;
     match html with
     | None | Some [] => ret None
     | Some html =>
       match extractSpecializedContent html url with
       | Some (content, _) =>
         if 200 <? length content then ret (Some content)
         else ret (Some (targeted_fallback html hostname))
       | None => ret (Some (targeted_fallback html hostname))
       end
     end)
    (fun _ => ret None).

Definition strategy_of (b : Body) : str :=
  match body_strategy b with Some s => s | None => u "auto" end.

Definition targeted_tag (hostname : str) : str :=
  if hasSpecializedScraper hostname then u "specialized-targeted" else u "targeted".

(** The [switch (strategy)] of the handler: the content and the method. *)
Definition dispatch (strategy url hostname : str) : M (option str * str) :=
  if str_eqb strategy (u "basic") then
    c <- basicScrape url ;; ret (c, u "basic")
  else if str_eqb strategy (u "targeted") then
    c <- targetedScrape url hostname ;; ret (c, targeted_tag hostname)
  else
    c <- targetedScrape url hostname ;;
    match c with
    | Some t => if length t <? 200 then
                  b <- basicScrape url ;; ret (b, u "basic-fallback")
                else ret (c, targeted_tag hostname)
    | None => b <- basicScrape url ;; ret (b, u "basic-fallback")
    end.

End Pipeline.

(** The handler after the [switch]: the length check, the enhancer and
    the 20000-unit limit. *)
Definition finish (url hostname : str) (content : option str) (method : str)
  : Response :=
  match content with
  | Some c =>
    if length c <? 100 then
      {| status := 400;
         payload := PError (u "Could not extract meaningful content from webpage")
                           (Some method) None |}
    else
      let limited := firstn 20000 (enhanceJobContent c hostname) in
      {| status := 200;
         payload := PSuccess limited url (length limited) method hostname |}
  | None =>
    {| status := 400;
       payload := PError (u "Could not extract meaningful content from webpage")
                         (Some method) None |}
  end.

Definition handler_try (net : nat -> FetchOutcome) (parse_url : str -> option str)
  (req : Request) : M Response :=
  b <- match req_body req with Some b => ret b | None => throw TypeError end ;;
  match body_url b with
  | None | Some [] =>
    ret {| status := 400; payload := PError (u "URL is required") None None |}
  | Some url =>
    match parse_url url with
    | None =>
      ret {| status := 400; payload := PError (u "Invalid URL provided") None None |}
    | Some hostname =>
      r <- dispatch net parse_url (strategy_of b) url hostname ;;
      let '(content, method) := r in
      ret (finish url hostname content method)
    end
  end.

(** [handler(req, res)]: the response it sends. *)
Definition handler (net : nat -> FetchOutcome) (parse_url : str -> option str)
  (req : Request) : M Response :=
  if str_eqb (req_method req) (u "OPTIONS") then
    ret {| status := 200; payload := PEmpty |}
  else if negb (str_eqb (req_method req) (u "POST")) then
    ret {| status := 405; payload := PError (u "Method not allowed") None None |}
  else
    try_catch (handler_try net parse_url req)
      (fun e =>
         match e with
         | AbortError =>
           ret {| status := 408; payload := PError (u "Request timeout") None None |}
         | _ =>
           ret {| status := 500;
                  payload := PError (u "Failed to scrape webpage") None
                                    (Some (error_message e)) |}
         end).

(** [new URL(url).hostname] for URLs of the form
    [http(s)://host[:port][/path...]] with an ASCII host (lower-cased), the
    only form used in the concrete scenarios below. *)
Definition parse_http_url (url : str) : option str :=
  let rest := if starts (u "https://") url then Some (skipn 8 url)
              else if starts (u "http://") url then Some (skipn 7 url)
              else None in
  match rest with
  | Some r =>
    match take_while (fun c => negb ((c =? 47)%N || (c =? 58)%N || (c =? 63)%N
                                     || (c =? 35)%N)) r with
    | [] => None
    | h => Some (to_lower h)
    end
  | None => None
  end.

(** [SpecializedScraper.getSiteConfig(url)]: the hostname, lower-cased,
    looked up in the registry; the [catch] of an unparsable URL gives
    [null]. *)
Definition getSiteConfig_url (parse_url : str -> option str) (url : str)
  : option (str * SiteConfig) :=
  match parse_url url with
  | Some h => getSiteConfig (to_lower h)
  | None => None
  end.

(** The lookup rule as the specification words it: a {e leading} [www.]
    is stripped from the hostname before the reverse containment test. *)
Definition strip_leading_www (h : str) : str :=
  if starts (u "www.") h then skipn 4 h else h.

Definition spec_site_matches (hostname domain : str) : bool :=
  includes hostname domain || includes domain (strip_leading_www hostname).

Definition spec_getSiteConfig (hostname : str) : option (str * SiteConfig) :=
  find (fun '(d, _) => spec_site_matches hostname d) SPECIALIZED_CONFIGS.

(** JavaScript values reaching [extractTextFromHtml]. *)
Inductive js_val := JStr (s : str) | JUndefined | JNull | JNum (z : Z).

(** The body of the [try] of [extractTextFromHtml]: [html.replace] throws
    a [TypeError] on anything but a string. *)
Definition extractTextFromHtml_body (v : js_val) : result str :=
  match v with
  | JStr s => Ok (extractTextFromHtml s)
  | _ => Err TypeError
  end.

(** [extractTextFromHtml] with its [catch]. *)
Definition extractTextFromHtml_js (v : js_val) : result str :=
  match extractTextFromHtml_body v with
  | Ok s => Ok s
  | Err _ => Ok []
  end.

(** ** [SpecializedScraper] (src/unnamed/part_008) *)

(** [SITE_CONFIGS]: the same object literal as [SPECIALIZED_CONFIGS],
    entry by entry and in the same order. *)
Definition SITE_CONFIGS : list (str * SiteConfig) := SPECIALIZED_CONFIGS.

(** [SpecializedScraper.canHandle(url)]; [parse_url] is
    [new URL(url).hostname] ([None] when the constructor throws, which
    the [catch] turns into [false]). *)
Definition canHandle (parse_url : str -> option str) (url : str) : bool :=
  match parse_url url with
  | Some h => existsb (fun '(d, _) => site_matches (to_lower h) d) SITE_CONFIGS
  | None => false
  end.

(** [SpecializedScraper.getSupportedSites()]: the domain and the company
    of each registry entry, in registration order. *)
Definition getSupportedSites : list (str * str) :=
  map (fun '(domain, config) => (domain, company config)) SITE_CONFIGS.

(** ** The development servers (src/scripts/dev-proxy.js) *)

(** [extractTextFromHtml] of the Express proxy: the entity chain stops at
    [&#39;]. *)
Definition proxy_entity_decoders : list matcher :=
  [ m_lit (u "&nbsp;") (u " ");
    m_lit (u "&amp;") (u "&");
    m_lit (u "&lt;") (u "<");
    m_lit (u "&gt;") (u ">");
    m_lit (u "&quot;") [34%N];
    m_lit (u "&#39;") [39%N] ].

Definition extractTextFromHtml_proxy (html : str) : str :=
  let s := replace m_script html in
  let s := replace m_style s in
  let s := replace m_comment s in
  let s := replace m_tag s in
  let s := replace_ms proxy_entity_decoders s in
  let s := replace m_ws s in
  let s := replace m_nl2 s in
  trim s.

(** [extractTextFromHtml] of the Vercel function of the same file: the
    chain adds [&apos;] and has no numeric entities. *)
Definition vercel_entity_decoders : list matcher :=
  [ m_lit (u "&nbsp;") (u " ");
    m_lit (u "&amp;") (u "&");
    m_lit (u "&lt;") (u "<");
    m_lit (u "&gt;") (u ">");
    m_lit (u "&quot;") [34%N];
    m_lit (u "&#39;") [39%N];
    m_lit (u "&apos;") [39%N] ].

Definition extractTextFromHtml_vercel (html : str) : str :=
  let s := replace m_script html in
  let s := replace m_style s in
  let s := replace m_comment s in
  let s := replace m_tag s in
  let s := replace_ms vercel_entity_decoders s in
  let s := replace m_ws s in
  let s := replace m_nl2 s in
  trim s.

(** The decimal digits of a number ([`${n}`]). *)
Fixpoint uint_units (d : Decimal.uint) : str :=
  match d with
  | Decimal.Nil => []
  | Decimal.D0 d => 48%N :: uint_units d
  | Decimal.D1 d => 49%N :: uint_units d
  | Decimal.D2 d => 50%N :: uint_units d
  | Decimal.D3 d => 51%N :: uint_units d
  | Decimal.D4 d => 52%N :: uint_units d
  | Decimal.D5 d => 53%N :: uint_units d
  | Decimal.D6 d => 54%N :: uint_units d
  | Decimal.D7 d => 55%N :: uint_units d
  | Decimal.D8 d => 56%N :: uint_units d
  | Decimal.D9 d => 57%N :: uint_units d
  end.

Definition N_to_dec (n : N) : str := uint_units (N.to_uint n).

(** What [fetch] gives the development servers: a response (status,
    [statusText] and body text), or a rejection with the error's [name],
    [code] and [message]. *)
Inductive DevFetch :=
| DevOk (st : N) (statusText : str) (body : str)
| DevErr (name : str) (code : option str) (message : str).

Inductive DevPayload :=
| DevEmpty
| DevError (error : str) (details : option str)
| DevSuccess (content : str) (url : str) (contentLength : nat).

Record DevResponse := { dev_status : N; dev_payload : DevPayload }.

(** The [TypeError] of [const { url } = req.body] when there is no body. *)
Definition destructure_message : str :=
  uq "Cannot destructure property 'url' of 'req.body' as it is undefined.".

Definition dev_ok (st : N) : bool := ((200 <=? st) && (st <=? 299))%N.

(** The [catch] of the Vercel function. *)
Definition dev_catch (name : str) (code : option str) (message : str) : DevResponse :=
  if str_eqb name (u "AbortError") then
    {| dev_status := 408;
       dev_payload := DevError (u "Request timeout - webpage took too long to load") None |}
  else if match code with
          | Some c => str_eqb c (u "ENOTFOUND") || str_eqb c (u "ECONNREFUSED")
          | None => false
          end then
    {| dev_status := 400;
       dev_payload := DevError (u "Could not connect to the website. Please check the URL.") None |}
  else
    {| dev_status := 500;
       dev_payload := DevError (u "Failed to scrape webpage") (Some message) |}.

(** The Vercel [handler(req, res)] of src/scripts/dev-proxy.js: the
    response and the number of [fetch] calls. *)
Definition dev_handler (net : nat -> DevFetch) (parse_url : str -> option str)
  (req : Request) : M DevResponse := fun n =>
  if str_eqb (req_method req) (u "OPTIONS") then
    (Ok {| dev_status := 200; dev_payload := DevEmpty |}, n)
  else if negb (str_eqb (req_method req) (u "POST")) then
    (Ok {| dev_status := 405; dev_payload := DevError (u "Method not allowed") None |}, n)
  else
    match req_body req with
    | None => (Ok (dev_catch (u "TypeError") None destructure_message), n)
    | Some b =>
      match body_url b with
      | None | Some [] =>
        (Ok {| dev_status := 400; dev_payload := DevError (u "URL is required") None |}, n)
      | Some url =>
        match parse_url url with
        | None =>
          (Ok {| dev_status := 400;
                 dev_payload := DevError (u "Invalid URL provided") None |}, n)
        | Some _ =>
          match net n with
          | DevErr name code message => (Ok (dev_catch name code message), S n)
          | DevOk st statusText html =>
            if negb (dev_ok st) then
              (Ok {| dev_status := st;
                     dev_payload := DevError (u "Failed to fetch webpage: " ++ N_to_dec st
                                              ++ u " " ++ statusText) None |}, S n)
            else if length html <? 100 then
              (Ok {| dev_status := 400;
                     dev_payload :=
                       DevError (u "Webpage content appears to be empty or too short") None |},
               S n)
            else
              let textContent := extractTextFromHtml_vercel html in
              if length textContent <? 100 then
                (Ok {| dev_status := 400;
                       dev_payload :=
                         DevError (u "Could not extract meaningful content from webpage") None |},
                 S n)
              else
                let limitedContent := firstn 15000 textContent in
                (Ok {| dev_status := 200;
                       dev_payload := DevSuccess limitedContent url (length limitedContent) |},
                 S n)
          end
        end
      end
    end.

(** The Express route [POST /api/scrape-job] ([express.json()] always
    leaves an object in [req.body]); [POST /api/scrape-advanced] is routed
    to it. Every error, the [HTTP ...] one of a non-[ok] response
    included, is answered with 500. *)
Definition proxy_scrape_job (net : nat -> DevFetch) (b : Body) : M DevResponse := fun n =>
  match body_url b with
  | None | Some [] =>
    (Ok {| dev_status := 400; dev_payload := DevError (u "URL is required") None |}, n)
  | Some url =>
    let fail message :=
      {| dev_status := 500;
         dev_payload := DevError (u "Failed to scrape webpage") (Some message) |} in
    match net n with
    | DevErr _ _ message => (Ok (fail message), S n)
    | DevOk st statusText html =>
      if negb (dev_ok st) then
        (Ok (fail (u "HTTP " ++ N_to_dec st ++ u ": " ++ statusText)), S n)
      else
        let limitedContent := firstn 15000 (extractTextFromHtml_proxy html) in
        (Ok {| dev_status := 200;
               dev_payload := DevSuccess limitedContent url (length limitedContent) |}, S n)
    end
  end.

(** [isJobPostingContent(content)]. *)
Definition jobKeywords : list str :=
  map u ["job"; "position"; "role"; "career"; "employment"; "hiring";
         "responsibilities"; "requirements"; "qualifications"; "experience";
         "salary"; "benefits"; "apply"; "candidate"; "skills"]%string.

Definition isJobPostingContent (content : str) : bool :=
  let lowerContent := to_lower content in
  let keywordCount := length (filter (fun k => includes lowerContent k) jobKeywords) in
  3 <=? keywordCount.

(** ** Concrete scenarios *)

Definition rep (n : nat) (s : str) : str := concat (repeat s n).

Definition post (url : string) (strategy : string) : Request :=
  {| req_method := u "POST";
     req_body := Some {| body_url := Some (u url);
                         body_strategy := Some (u strategy) |} |}.

(** Every [fetch] answers 200 with [body]. *)
Definition serve (body : str) : nat -> FetchOutcome := fun _ => FetchOk 200 body.

(** The same for the development servers. *)
Definition serve_dev (body : str) : nat -> DevFetch := fun _ => DevOk 200 (u "OK") body.

(** A page whose text is eleven times [Apply now]. *)
Definition apply_now_page : str := rep 11 (u "Apply now ").

(** A [careers.google.com]-shaped page: a [.job-description] block of 500
    units between 1000 units of navigation and 1000 units of footer. *)
Definition nav_text : str := rep 50 (u "Home Jobs Teams Help").
Definition footer_text : str := rep 50 (u "Contact Legal Press.").
Definition job_text : str := rep 25 (u "We write great code.").

Definition google_page : str :=
  uq "<html><body><nav>" ++ nav_text
  ++ uq "</nav><div class='job-description'>" ++ job_text
  ++ uq "</div><footer>" ++ footer_text ++ uq "</footer></body></html>".

(** What the handler sends for [google_page]: the enhanced text of the
    whole page. *)
Definition google_content : str :=
  firstn 20000 (enhanceJobContent (extractTextFromHtml google_page) (u "careers.google.com")).

(** A page whose markup is written with entities. *)
Definition escaped_page : str :=
  u "&lt;div class=job-description&gt;" ++ job_text ++ u "&lt;/div&gt;".

(** ** Predicates used by the proofs *)

(** [P] holds of every suffix of the string. *)
Fixpoint all_suffixes (P : str -> Prop) (s : str) : Prop :=
  P s /\ match s with [] => True | _ :: t => all_suffixes P t end.

(** At this position the matcher fails, or replaces what it matched by
    the same text. *)
Definition stable_at (m : matcher) (t : str) : Prop :=
  forall p, m p t = None
            \/ exists k r, m p t = Some (S k, r) /\ r = firstn (S k) t.

(** The matcher fails at every position of [q], whatever follows [q]. *)
Fixpoint dead_along (m : matcher) (prev : option N) (q : str) : Prop :=
  match q with
  | [] => True
  | c :: q' => (forall r, m prev (q ++ r) = None) /\ dead_along m (Some c) q'
  end.

(** The pattern mismatches within [q]. *)
Fixpoint pdead (p : pat) (q : str) : bool :=
  match p, q with
  | e :: p', c :: q' => negb (pel_ok e c) || pdead p' q'
  | _, _ => false
  end.

(** A sufficient test that a regex of the enhancer or the cleaner fails at
    the start of [q] whatever follows. *)
Definition rdead (e : regex) (prev : option N) (q : str) : bool :=
  match q with
  | [] => false
  | c :: _ =>
    match e with
    | RWb alts _ => negb (wb prev (Some c)) || forallb (fun a => pdead a q) alts
    | RCi p => pdead p q
    | RCopyright => pdead [PC 194%N; PC 169%N] q
    | RNl3 => negb (c =? 10)%N
    end
  end.

Fixpoint rdead_along (e : regex) (prev : option N) (q : str) : bool :=
  match q with
  | [] => true
  | c :: q' => rdead e prev q && rdead_along e (Some c) q'
  end.

Definition has_amp (s : str) : bool := existsb (fun c => (c =? 38)%N) s.

(** No [<] is followed, later, by a [>]. *)
Fixpoint no_tag (s : str) : Prop :=
  match s with
  | [] => True
  | c :: t => (c = 60%N -> ~ In 62%N t) /\ no_tag t
  end.

Definition is_angle (c : N) : bool := (c =? 60)%N || (c =? 62)%N.

(** The only whitespace is the space, and no two whitespace units are
    adjacent. *)
Definition ws32 (s : str) : Prop := Forall (fun c => is_ws c = true -> c = 32%N) s.

Fixpoint no_adj_ws (s : str) : Prop :=
  match s with
  | a :: (b :: _) as t => (is_ws a = false \/ is_ws b = false) /\ no_adj_ws t
  | _ => True
  end.

(** The string is empty or starts with a non-whitespace unit. *)
Definition hd_nws (s : str) : Prop :=
  match s with [] => True | c :: _ => is_ws c = false end.

Definition trimmed (s : str) : Prop := hd_nws s /\ hd_nws (rev s).

(** What the normalizer produces from a text without [&]. *)
Definition clean_text (s : str) : Prop :=
  Forall (fun c => c <> 38%N) s /\ no_tag s /\ ws32 s /\ no_adj_ws s /\ trimmed s.

(** A sufficient test that the [Company:] line built for [comp] survives
    [clean_tail]: no regex of the cleaner matches inside it (the one
    after it may still rewrite the blank line), and it ends with a
    non-whitespace unit. *)
Definition company_line_dead (comp : str) : bool :=
  forallb (fun e => rdead_along e None (u "Company: " ++ comp ++ [10%N]))
          (clean_noise ++ header_regexes)
  && rdead_along RNl3 None (u "Company: " ++ comp)
  && negb (is_ws (last comp 32%N)).

(** The banner that [enhanceJobContent] puts in front of the text:
    [`Source: ${hostname}\n\n`]. *)
Definition source_banner (hostname : str) : str := u "Source: " ++ hostname ++ nl2.

(** A sufficient test that no regex of the enhancer matches inside the
    banner, at the start of the text or after a blank line: the banner is
    then copied unchanged, whatever follows it. *)
Definition banner_dead (hostname : str) : bool :=
  forallb (fun e => rdead_along e None (source_banner hostname)
                    && rdead_along e (Some 10%N) (source_banner hostname))
          (enhance_noise ++ header_regexes).

(** A [<] with a [>] after it. *)
Definition tag_at (t : str) : Prop :=
  match t with c :: t' => c = 60%N /\ In 62%N t' | [] => False end.

(** An [&] starts the text. *)
Definition amp_at (t : str) : Prop := hd_error t = Some 38%N.

(** * Properties *)

(** ** Sanity checks of the model on small inputs *)

Example norm_ex1 :
  extractTextFromHtml (u "<p>Hi <b>there</b></p><script>x<y</script>&amp;&#65;&#x42;")
  = u "Hi there &AB".
Proof. vm_compute. reflexivity. Qed.

Example enhance_ex1 :
  enhanceJobContent (u "Apply now. Great role; responsibilities: code") (u "a.b")
  = u "Source: a.b" ++ nl2 ++ u ". Great role; " ++ nl2 ++ u "Responsibilities:: code".
Proof. vm_compute. reflexivity. Qed.

Example clean_ex1 :
  cleanJobContent (u "  description   here ") (u "Google")
  = u "Company: Google" ++ nl2 ++ u "Job Description: here".
Proof. vm_compute. reflexivity. Qed.

Example sel_ex1 : sel_name 46%N (uq "[data-x='a'] .job-description") = Some (u "job-description").
Proof. reflexivity. Qed.

Example elem_ex1 :
  exec_elem (u "class") (u "job-description")
    (uq "<nav>x</nav><div class='job-description'>Hello <b>w</b></div>")
  = Some (u "Hello <b>w").
Proof. vm_compute. reflexivity. Qed.

(** ** Generic list facts *)

Lemma Forall_skipn_l {A} (Q : A -> Prop) n (l : list A) :
  Forall Q l -> Forall Q (skipn n l).
Proof.
  revert l; induction n as [|n IH]; intros [|a l] H; simpl; auto.
  inversion H; subst; auto.
Qed.

Lemma In_skipn_l {A} (x : A) n (l : list A) : In x (skipn n l) -> In x l.
Proof.
  revert l; induction n as [|n IH]; intros [|a l] H; simpl in *; auto.
Qed.

Lemma all_suffixes_skipn P : forall n s, all_suffixes P s -> all_suffixes P (skipn n s).
Proof.
  induction n as [|n IH]; intros [|c t] H; simpl in *; auto.
  apply IH; tauto.
Qed.

(** ** The replacement loop *)

Section Replace.

Variable m : matcher.

Lemma rep_go_cons f p c t :
  rep_go m (S f) p (c :: t) =
  match m p (c :: t) with
  | Some (O, r) => r ++ c :: rep_go m f (Some c) t
  | Some (S k, r) => r ++ rep_go m f (Some (nth k t c)) (skipn k t)
  | None => c :: rep_go m f (Some c) t
  end.
Proof. reflexivity. Qed.

(** Every unit of the output comes from the input or from a replacement. *)
Lemma rep_go_forall (Q : N -> Prop) :
  (forall p t n r, m p t = Some (n, r) -> Forall Q r) ->
  forall f p s, Forall Q s -> Forall Q (rep_go m f p s).
Proof.
  intros Hm; induction f as [|f IH]; intros p s Hs; [exact Hs|].
  destruct s as [|c t].
  - simpl. destruct (m p []) as [[n r]|] eqn:E; [exact (Hm _ _ _ _ E)|constructor].
  - rewrite rep_go_cons. inversion Hs; subst.
    destruct (m p (c :: t)) as [[[|k] r]|] eqn:E.
    + apply Forall_app; split; [exact (Hm _ _ _ _ E)|]. constructor; auto.
    + apply Forall_app; split; [exact (Hm _ _ _ _ E)|].
      apply IH. apply Forall_skipn_l; assumption.
    + constructor; auto.
Qed.

(** The units selected by [g] are kept, in order, when matches and
    replacements hold none of them. *)
Lemma rep_go_filter (g : N -> bool) :
  (forall p t n r, m p t = Some (n, r) -> filter g (firstn n t) = [] /\ filter g r = []) ->
  forall f p s, filter g (rep_go m f p s) = filter g s.
Proof.
  intros Hm; induction f as [|f IH]; intros p s; [reflexivity|].
  destruct s as [|c t].
  - simpl. destruct (m p []) as [[n r]|] eqn:E; [apply (Hm _ _ _ _ E)|reflexivity].
  - rewrite rep_go_cons.
    destruct (m p (c :: t)) as [[[|k] r]|] eqn:E.
    + destruct (Hm _ _ _ _ E) as [_ Hr].
      rewrite filter_app, Hr. simpl. rewrite IH. reflexivity.
    + destruct (Hm _ _ _ _ E) as [Hf Hr].
      rewrite filter_app, Hr, IH. simpl app.
      rewrite <- (firstn_skipn (S k) (c :: t)), filter_app, Hf. reflexivity.
    + simpl. rewrite IH. reflexivity.
Qed.

(** Where the matcher fails or rewrites every match to itself, the loop
    is the identity. *)
Lemma rep_go_stable : forall f p s, all_suffixes (stable_at m) s -> rep_go m f p s = s.
Proof.
  induction f as [|f IH]; intros p s H; [reflexivity|].
  destruct s as [|c t].
  - destruct H as [H _]. simpl.
    destruct (H p) as [E|(k & r & E & Er)]; rewrite E; [reflexivity|].
    rewrite Er. reflexivity.
  - rewrite rep_go_cons. pose proof H as [H0 Ht].
    destruct (H0 p) as [E|(k & r & E & Er)]; rewrite E.
    + rewrite IH; auto.
    + rewrite IH.
      * rewrite Er. apply (firstn_skipn (S k) (c :: t)).
      * apply (all_suffixes_skipn _ (S k) (c :: t)). exact H.
Qed.

(** A prefix on which the matcher is dead is copied unchanged. *)
Lemma rep_go_prefix : forall q f p r, dead_along m p q ->
  exists r', rep_go m f p (q ++ r) = q ++ r'.
Proof.
  induction q as [|c q IH]; intros f p r H.
  - exists (rep_go m f p r); reflexivity.
  - destruct f as [|f]; [exists r; reflexivity|].
    destruct H as [H0 H1].
    specialize (H0 r). simpl app in *. rewrite rep_go_cons, H0.
    destruct (IH f (Some c) r H1) as [r' E]. exists r'. rewrite E. reflexivity.
Qed.

(** A matcher that can only match where [G] holds is the identity on a
    string no suffix of which satisfies [G]. *)
Lemma stable_of_guard (G : str -> Prop) :
  (forall p t x, m p t = Some x -> G t) ->
  forall s, all_suffixes (fun t => ~ G t) s -> all_suffixes (stable_at m) s.
Proof.
  intros Hg; induction s as [|c t IH]; intros [H Ht]; split.
  - intros p. left. destruct (m p []) eqn:E; [|reflexivity]. exfalso; eauto.
  - exact I.
  - intros p. left. destruct (m p (c :: t)) eqn:E; [|reflexivity]. exfalso; eauto.
  - apply IH; exact Ht.
Qed.

End Replace.

Lemma replace_ms_stable : forall ms s,
  Forall (fun m => all_suffixes (stable_at m) s) ms -> replace_ms ms s = s.
Proof.
  induction ms as [|m ms IH]; intros s H; [reflexivity|].
  inversion H; subst. unfold replace_ms; simpl.
  unfold replace. rewrite rep_go_stable by assumption. apply IH; assumption.
Qed.

Lemma replace_rx_cons e es s : replace_rx (e :: es) s = replace_rx es (replace (rx e) s).
Proof. reflexivity. Qed.

Lemma replace_rx_prefix : forall es q s,
  Forall (fun e => dead_along (rx e) None q) es ->
  exists r, replace_rx es (q ++ s) = q ++ r.
Proof.
  induction es as [|e es IH]; intros q s H; [exists s; reflexivity|].
  inversion H; subst. rewrite replace_rx_cons. unfold replace.
  destruct (rep_go_prefix (rx e) q (S (length (q ++ s))) None s) as [r1 E]; [assumption|].
  rewrite E. apply IH. assumption.
Qed.

(** ** Dead prefixes of the enhancer and cleaner regexes *)

Lemma pdead_sound : forall p q r, pdead p q = true -> pmatch p (q ++ r) = false.
Proof.
  induction p as [|e p IH]; intros [|c q] r H; simpl in *; try discriminate.
  apply orb_true_iff in H as [H|H].
  - apply negb_true_iff in H. rewrite H. reflexivity.
  - rewrite IH by exact H. apply andb_false_r.
Qed.

Lemma wb_alts_dead : forall alts r0 q r,
  forallb (fun a => pdead a q) alts = true -> wb_alts alts r0 (q ++ r) = None.
Proof.
  induction alts as [|a al IH]; intros r0 q r H; [reflexivity|].
  simpl in H. apply andb_true_iff in H as [H1 H2]. simpl.
  rewrite pdead_sound by exact H1. simpl. apply IH; exact H2.
Qed.

Lemma rdead_sound e prev q : rdead e prev q = true -> forall r, rx e prev (q ++ r) = None.
Proof.
  intros H r. destruct q as [|c q]; [discriminate|].
  destruct e as [alts r0|p| |]; simpl in H; unfold rx.
  - unfold m_wb. change (hd_error ((c :: q) ++ r)) with (Some c).
    apply orb_true_iff in H as [H|H].
    + apply negb_true_iff in H. rewrite H. reflexivity.
    + destruct (wb prev (Some c)); [|reflexivity].
      apply (wb_alts_dead alts r0 (c :: q) r H).
  - unfold m_ci. rewrite (pdead_sound p (c :: q) r H). reflexivity.
  - unfold m_copyright. rewrite (pdead_sound [PC 194%N; PC 169%N] (c :: q) r H). reflexivity.
  - unfold m_nl3. simpl. apply negb_true_iff in H. rewrite H. reflexivity.
Qed.

Lemma rdead_along_sound e : forall q prev, rdead_along e prev q = true -> dead_along (rx e) prev q.
Proof.
  induction q as [|c q IH]; intros prev H; simpl in *; [exact I|].
  apply andb_true_iff in H as [H1 H2]. split.
  - intros r. apply (rdead_sound e prev (c :: q) H1).
  - apply IH; exact H2.
Qed.

Lemma replace_rx_app es1 es2 s : replace_rx (es1 ++ es2) s = replace_rx es2 (replace_rx es1 s).
Proof. unfold replace_rx. apply fold_left_app. Qed.

Lemma replace_rx_dead_prefix es q s :
  forallb (fun e => rdead_along e None q) es = true ->
  exists r, replace_rx es (q ++ s) = q ++ r.
Proof.
  intros H. apply replace_rx_prefix. apply Forall_forall. intros e He.
  apply rdead_along_sound. rewrite forallb_forall in H. apply H; exact He.
Qed.

(** ** Whitespace trimming *)

Lemma drop_ws_hd_nws : forall s, hd_nws s -> drop_ws s = s.
Proof. intros [|c s] H; simpl in *; [reflexivity|]. rewrite H. reflexivity. Qed.

Lemma hd_nws_drop_ws : forall s, hd_nws (drop_ws s).
Proof.
  induction s as [|c s IH]; simpl; [exact I|].
  destruct (is_ws c) eqn:E; [exact IH|exact E].
Qed.

Lemma drop_ws_suffix : forall s, exists a, s = a ++ drop_ws s.
Proof.
  induction s as [|c s IH]; simpl; [exists []; reflexivity|].
  destruct (is_ws c).
  - destruct IH as [a E]. exists (c :: a). simpl. rewrite <- E. reflexivity.
  - exists []. reflexivity.
Qed.

Lemma drop_ws_app_nws : forall a b, hd_nws b -> exists a', drop_ws (a ++ b) = a' ++ b.
Proof.
  induction a as [|c a IH]; intros b H; simpl.
  - exists []. apply drop_ws_hd_nws; exact H.
  - destruct (is_ws c); [apply IH; exact H|]. exists (c :: a). reflexivity.
Qed.

(** [trim] takes a contiguous part of its argument. *)
Lemma trim_infix s : exists a b, s = a ++ trim s ++ b.
Proof.
  unfold trim.
  destruct (drop_ws_suffix s) as [a Ea].
  destruct (drop_ws_suffix (rev (drop_ws s))) as [b Eb].
  exists a, (rev b). rewrite <- rev_app_distr, <- Eb, rev_involutive. exact Ea.
Qed.

Lemma hd_nws_app a b : hd_nws (a ++ b) -> a <> [] -> hd_nws a.
Proof. destruct a; simpl; auto. Qed.

Lemma trim_trimmed s : trimmed (trim s).
Proof.
  unfold trimmed, trim. rewrite rev_involutive. split; [|apply hd_nws_drop_ws].
  set (d := drop_ws s). set (D := drop_ws (rev d)).
  destruct (drop_ws_suffix (rev d)) as [a Ea]. fold D in Ea.
  destruct D as [|x D'] eqn:ED; [exact I|].
  assert (Hd : d = rev (x :: D') ++ rev a).
  { rewrite <- rev_app_distr, <- Ea, rev_involutive. reflexivity. }
  apply (hd_nws_app _ (rev a)).
  - rewrite <- Hd. apply hd_nws_drop_ws.
  - intro E. apply (f_equal (@length N)) in E. rewrite length_rev in E. discriminate.
Qed.

Lemma trim_id s : trimmed s -> trim s = s.
Proof.
  intros [H1 H2]. unfold trim. rewrite (drop_ws_hd_nws s H1), (drop_ws_hd_nws _ H2).
  apply rev_involutive.
Qed.

Lemma trim_prefix q r : hd_nws q -> hd_nws (rev q) -> q <> [] -> exists r', trim (q ++ r) = q ++ r'.
Proof.
  intros H1 H2 H3. unfold trim.
  rewrite (drop_ws_hd_nws (q ++ r)) by (destruct q; [contradiction|exact H1]).
  rewrite rev_app_distr. destruct (drop_ws_app_nws (rev r) (rev q) H2) as [a' E].
  rewrite E, rev_app_distr, rev_involutive. exists (rev a'). reflexivity.
Qed.

(** ** Scanning helpers *)

Lemma find_with_some st p : forall s j, find_with st p s = Some j -> st p (skipn j s) = true.
Proof.
  induction s as [|c s IH]; intros j H; simpl in H.
  - destruct (st p []) eqn:E; inversion H; subst; exact E.
  - destruct (st p (c :: s)) eqn:E; [inversion H; subst; exact E|].
    destruct (find_with st p s) as [j'|] eqn:E'; inversion H; subst.
    apply IH; reflexivity.
Qed.

Lemma find_with_none st p : forall s, find_with st p s = None -> forall k, st p (skipn k s) = false.
Proof.
  induction s as [|c s IH]; intros H k; simpl in H.
  - destruct (st p []) eqn:E; [discriminate|]. destruct k; exact E.
  - destruct (st p (c :: s)) eqn:E; [discriminate|].
    destruct (find_with st p s) eqn:E'; [discriminate|].
    destruct k; [exact E|]. apply IH; reflexivity.
Qed.

Lemma canon_low b : (canon b < 65)%N -> canon b = b.
Proof.
  unfold canon.
  destruct ((97 <=? b) && (b <=? 122))%N eqn:E1.
  { apply andb_true_iff in E1 as [E1 _]. apply N.leb_le in E1. lia. }
  destruct ((224 <=? b) && (b <=? 254) && negb (b =? 247))%N eqn:E2.
  { apply andb_true_iff in E2 as [E2 _]. apply andb_true_iff in E2 as [E2 _].
    apply N.leb_le in E2. lia. }
  destruct (b =? 181)%N; [lia|]. destruct (b =? 255)%N; [lia|]. reflexivity.
Qed.

Lemma ci_eq_low a b : canon a = a -> (a < 65)%N -> ci_eq a b = true -> b = a.
Proof.
  unfold ci_eq. intros Ha Hl H. apply N.eqb_eq in H.
  assert (Hb : canon b = b) by (apply canon_low; lia). congruence.
Qed.

Lemma starts_ci_In : forall p s a, starts_ci p s = true -> In a p ->
  exists b, In b s /\ ci_eq a b = true.
Proof.
  induction p as [|x p IH]; intros [|b s] a H Ha; simpl in *; try discriminate; try contradiction.
  apply andb_true_iff in H as [H1 H2]. destruct Ha as [<-|Ha].
  - exists b. auto.
  - destruct (IH s a H2 Ha) as (b' & Hb & E). exists b'. auto.
Qed.

Lemma starts_ci_of_starts : forall p s, starts p s = true -> starts_ci p s = true.
Proof.
  induction p as [|x p IH]; intros [|b s] H; simpl in *; try discriminate; auto.
  apply andb_true_iff in H as [H1 H2]. apply N.eqb_eq in H1. subst.
  unfold ci_eq. rewrite N.eqb_refl. simpl. apply IH; exact H2.
Qed.

Lemma starts_hd p0 p s : starts (p0 :: p) s = true -> hd_error s = Some p0.
Proof.
  destruct s as [|b s]; simpl; [discriminate|].
  intro H. apply andb_true_iff in H as [H _]. apply N.eqb_eq in H. subst. reflexivity.
Qed.

Lemma take_while_app f : forall s, s = take_while f s ++ skipn (length (take_while f s)) s.
Proof.
  induction s as [|c s IH]; simpl; [reflexivity|].
  destruct (f c); simpl; [f_equal; exact IH|reflexivity].
Qed.

Lemma take_while_Forall f : forall s, Forall (fun c => f c = true) (take_while f s).
Proof.
  induction s as [|c s IH]; simpl; [constructor|].
  destruct (f c) eqn:E; constructor; auto.
Qed.

Lemma skipn_take_while_ws : forall s, hd_nws (skipn (length (take_while is_ws s)) s).
Proof.
  induction s as [|c s IH]; simpl; [exact I|].
  destruct (is_ws c) eqn:E; [exact IH|exact E].
Qed.

Lemma has_amp_Forall : forall s, has_amp s = false -> Forall (fun c => c <> 38%N) s.
Proof.
  induction s as [|c s IH]; simpl; intro H; [constructor|].
  apply orb_false_iff in H as [H1 H2]. constructor.
  - intro E. subst. discriminate.
  - apply IH; exact H2.
Qed.

Lemma Forall_not_In {A} (a : A) l : Forall (fun c => c <> a) l -> ~ In a l.
Proof. intros H Hin. rewrite Forall_forall in H. exact (H a Hin eq_refl). Qed.

Lemma not_In_Forall {A} (a : A) l : ~ In a l -> Forall (fun c => c <> a) l.
Proof. intros H. apply Forall_forall. intros x Hx E. subst. contradiction. Qed.

(** ** Where the normalizer's regexes can match *)


Lemma m_block_guard op' cl p s x :
  In 62%N cl -> m_block (60%N :: op') cl p s = Some x -> tag_at s.
Proof.
  intros Hc H. unfold m_block in H.
  destruct s as [|b s']; [discriminate|].
  destruct (starts_ci (60%N :: op') (b :: s')) eqn:E1; [|discriminate].
  simpl in E1. apply andb_true_iff in E1 as [Eb _].
  simpl length in H. simpl skipn in H.
  destruct (match skipn (length op') s' with c :: _ => negb (is_word c) | [] => true end);
    [|discriminate].
  destruct (find_ci cl (skipn (length op') s')) as [j|] eqn:E2; [|discriminate].
  apply find_with_some in E2.
  destruct (starts_ci_In _ _ _ E2 Hc) as (b' & Hb' & E3).
  apply ci_eq_low in E3; [|reflexivity|lia]. apply ci_eq_low in Eb; [|reflexivity|lia].
  subst. split; [reflexivity|]. apply In_skipn_l in Hb'. apply In_skipn_l in Hb'. exact Hb'.
Qed.

Lemma m_script_guard p s x : m_script p s = Some x -> tag_at s.
Proof. apply m_block_guard. vm_compute. tauto. Qed.

Lemma m_style_guard p s x : m_style p s = Some x -> tag_at s.
Proof. apply m_block_guard. vm_compute. tauto. Qed.

Lemma m_comment_guard p s x : m_comment p s = Some x -> tag_at s.
Proof.
  unfold m_comment. destruct (starts (u "<!--") s) eqn:E1; [|discriminate].
  destruct (find_cs (u "-->") (skipn 4 s)) as [j|] eqn:E2; [|discriminate]. intros _.
  apply find_with_some, starts_ci_of_starts in E2.
  destruct (starts_ci_In _ _ 62%N E2) as (b' & Hb' & E3); [vm_compute; tauto|].
  apply ci_eq_low in E3; [|reflexivity|lia]. subst.
  apply starts_hd in E1. destruct s as [|c s]; [discriminate|]. inversion E1; subst.
  split; [reflexivity|]. apply In_skipn_l in Hb'. apply (In_skipn_l _ 3 s). exact Hb'.
Qed.

Lemma find_cs_single_some a t j : find_cs [a] t = Some j -> In a t.
Proof.
  intro H. apply find_with_some in H. remember (skipn j t) as t' eqn:Et.
  destruct t' as [|b t']; [discriminate|]. simpl in H.
  apply andb_true_iff in H as [H _]. apply N.eqb_eq in H. subst.
  apply (In_skipn_l _ j). rewrite <- Et. left; reflexivity.
Qed.

Lemma find_cs_single_none a t : find_cs [a] t = None -> ~ In a t.
Proof.
  intros H Hin. apply in_split in Hin as (l1 & l2 & ->).
  pose proof (find_with_none _ _ _ H (length l1)) as E.
  rewrite skipn_app, skipn_all, Nat.sub_diag in E. simpl in E.
  rewrite N.eqb_refl in E. discriminate.
Qed.

Lemma m_tag_guard p s x : m_tag p s = Some x -> tag_at s.
Proof.
  unfold m_tag. destruct s as [|c t]; [discriminate|].
  destruct (c =? 60)%N eqn:E; [|discriminate].
  destruct (find_cs [62%N] t) as [j|] eqn:E2; [|discriminate]. intros _.
  apply N.eqb_eq in E. split; [exact E|]. apply (find_cs_single_some _ _ _ E2).
Qed.

Lemma m_tag_repl p s n r : m_tag p s = Some (n, r) -> r = [32%N].
Proof.
  unfold m_tag. destruct s as [|c t]; [discriminate|].
  destruct (c =? 60)%N; [|discriminate].
  destruct (find_cs [62%N] t); [|discriminate]. intro H; inversion H; reflexivity.
Qed.

Lemma m_block_repl op cl p s n r : m_block op cl p s = Some (n, r) -> r = [].
Proof.
  unfold m_block. destruct (starts_ci op s); [|discriminate].
  destruct (match skipn (length op) s with c :: _ => negb (is_word c) | [] => true end);
    [|discriminate].
  destruct (find_ci cl (skipn (length op) s)); [|discriminate].
  intro H; inversion H; reflexivity.
Qed.

Lemma m_comment_repl p s n r : m_comment p s = Some (n, r) -> r = [].
Proof.
  unfold m_comment. destruct (starts (u "<!--") s); [|discriminate].
  destruct (find_cs (u "-->") (skipn 4 s)); [|discriminate].
  intro H; inversion H; reflexivity.
Qed.

Lemma m_ws_repl p s n r : m_ws p s = Some (n, r) -> r = [32%N].
Proof.
  unfold m_ws. destruct (take_while is_ws s); [discriminate|].
  intro H; inversion H; reflexivity.
Qed.


Lemma m_lit_guard p0 p r q s x : m_lit (p0 :: p) r q s = Some x -> hd_error s = Some p0.
Proof.
  unfold m_lit. destruct (starts (p0 :: p) s) eqn:E; [|discriminate].
  intros _. apply (starts_hd _ _ _ E).
Qed.

Lemma m_num_guard p0 pre isd base q s x :
  m_num (p0 :: pre) isd base q s = Some x -> hd_error s = Some p0.
Proof.
  unfold m_num. destruct (starts (p0 :: pre) s) eqn:E; [|discriminate].
  intros _. apply (starts_hd _ _ _ E).
Qed.

Lemma entity_guard : Forall (fun m => forall p s x, m p s = Some x -> amp_at s) entity_decoders.
Proof.
  repeat constructor; intros p s x H;
    first [ apply (m_lit_guard _ _ _ _ _ _ H) | apply (m_num_guard _ _ _ _ _ _ _ H) ].
Qed.

Lemma m_nl2_guard p s x : m_nl2 p s = Some x -> hd_error s = Some 10%N.
Proof.
  unfold m_nl2. destruct s as [|c t]; [discriminate|].
  destruct (c =? 10)%N eqn:E; [|discriminate]. intros _.
  apply N.eqb_eq in E. subst. reflexivity.
Qed.

(** ** Clean text is a fixed point of the normalizer *)

Lemma all_suffixes_inv (Inv P : str -> Prop) :
  (forall c t, Inv (c :: t) -> Inv t) -> (forall t, Inv t -> P t) ->
  forall s, Inv s -> all_suffixes P s.
Proof.
  intros Htl HP. induction s as [|c t IH]; intros H; simpl; split; auto.
  apply IH. apply (Htl c); exact H.
Qed.

Lemma replace_guarded m (G : str -> Prop) (Inv : str -> Prop) s :
  (forall p t x, m p t = Some x -> G t) ->
  (forall c t, Inv (c :: t) -> Inv t) -> (forall t, Inv t -> ~ G t) ->
  Inv s -> replace m s = s.
Proof.
  intros Hg Htl HP H. unfold replace. apply rep_go_stable.
  apply (stable_of_guard m G Hg). apply (all_suffixes_inv Inv); assumption.
Qed.

Lemma no_tag_not_tag_at t : no_tag t -> ~ tag_at t.
Proof.
  destruct t as [|c t]; simpl; [tauto|]. intros [H _] [E Hin]. exact (H E Hin).
Qed.

Lemma Forall_tl {A} (Q : A -> Prop) c t : Forall Q (c :: t) -> Forall Q t.
Proof. intro H; inversion H; assumption. Qed.

Lemma Forall_hd_not {A} (a : A) t : Forall (fun c => c <> a) t -> hd_error t <> Some a.
Proof. destruct t; simpl; intros H E; [discriminate|]. inversion H; inversion E; subst; auto. Qed.

Lemma ws32_no_nl t : ws32 t -> Forall (fun c => c <> 10%N) t.
Proof.
  unfold ws32. intro H. eapply Forall_impl; [|exact H].
  intros c Hc E. subst. specialize (Hc eq_refl). discriminate.
Qed.

Lemma no_adj_ws_tl c t : no_adj_ws (c :: t) -> no_adj_ws t.
Proof. destruct t as [|b t]; simpl; tauto. Qed.

Lemma m_ws_stable t : ws32 t -> no_adj_ws t -> stable_at m_ws t.
Proof.
  intros H1 H2 p. unfold m_ws. destruct t as [|c t]; [left; reflexivity|].
  simpl. destruct (is_ws c) eqn:E; [|left; reflexivity].
  inversion H1 as [|? ? Hc _]; subst. specialize (Hc E). subst.
  assert (Ht : take_while is_ws t = []).
  { destruct t as [|b t]; [reflexivity|]. simpl in H2. destruct H2 as [[H|H] _].
    - rewrite E in H. discriminate.
    - simpl. rewrite H. reflexivity. }
  rewrite Ht. right. exists 0, [32%N]. split; reflexivity.
Qed.

Lemma clean_fixed y : clean_text y -> extractTextFromHtml y = y.
Proof.
  intros (H38 & Htag & Hws & Hadj & Htr). unfold extractTextFromHtml.
  assert (Hnt : forall m, (forall p t x, m p t = Some x -> tag_at t) -> replace m y = y).
  { intros m Hg. apply (replace_guarded m tag_at no_tag y Hg).
    - intros c t [_ H]; exact H.
    - apply no_tag_not_tag_at.
    - exact Htag. }
  rewrite (Hnt m_script m_script_guard), (Hnt m_style m_style_guard),
          (Hnt m_comment m_comment_guard), (Hnt m_tag m_tag_guard).
  rewrite replace_ms_stable.
  2:{ eapply Forall_impl; [|exact entity_guard]. intros m Hg.
      apply (stable_of_guard m amp_at Hg).
      apply (all_suffixes_inv (Forall (fun c => c <> 38%N))).
      - apply Forall_tl.
      - intros t Ht. apply Forall_hd_not; exact Ht.
      - exact H38. }
  assert (Hw : replace m_ws y = y).
  { unfold replace. apply rep_go_stable.
    apply (all_suffixes_inv (fun t => ws32 t /\ no_adj_ws t)).
    - intros c t [A B]. split; [apply (Forall_tl _ c t A)|apply (no_adj_ws_tl c t B)].
    - intros t [A B]. apply m_ws_stable; assumption.
    - split; assumption. }
  rewrite Hw.
  rewrite (replace_guarded m_nl2 (fun t => hd_error t = Some 10%N)
             (Forall (fun c => c <> 10%N)) y m_nl2_guard).
  - apply trim_id; exact Htr.
  - apply Forall_tl.
  - apply Forall_hd_not.
  - apply ws32_no_nl; exact Hws.
Qed.

(** ** The normalizer produces clean text from a text without [&] *)

Lemma no_tag_app_r : forall a l, no_tag (a ++ l) -> no_tag l.
Proof.
  induction a as [|c a IH]; simpl; intros l H.
  - exact H.
  - apply IH; apply H.
Qed.

Lemma no_tag_app_l : forall l b, no_tag (l ++ b) -> no_tag l.
Proof.
  induction l as [|c l IH]; simpl; intros b H; [exact I|]. destruct H as [H1 H2]. split.
  - intros E Hin. apply (H1 E). apply in_or_app. left; exact Hin.
  - apply (IH b H2).
Qed.

Lemma no_adj_ws_app_r : forall a l, no_adj_ws (a ++ l) -> no_adj_ws l.
Proof.
  induction a as [|c a IH]; simpl; intros l H.
  - exact H.
  - apply IH. apply (no_adj_ws_tl c). exact H.
Qed.

Lemma no_adj_ws_app_l : forall l b, no_adj_ws (l ++ b) -> no_adj_ws l.
Proof.
  induction l as [|c l IH]; intros b H; [exact I|].
  destruct l as [|d l]; [exact I|].
  simpl in H |- *. destruct H as [H1 H2]. split; [exact H1|].
  apply (IH b). exact H2.
Qed.

Lemma no_tag_filter : forall s, no_tag s <-> no_tag (filter is_angle s).
Proof.
  induction s as [|c s IH]; simpl; [tauto|].
  destruct (is_angle c) eqn:E; simpl.
  - rewrite <- IH. assert (In 62%N (filter is_angle s) <-> In 62%N s).
    { rewrite filter_In. split; [tauto|]. intro; split; [assumption|reflexivity]. }
    tauto.
  - rewrite <- IH. split; [tauto|]. intro H; split; [|exact H].
    intro Ec. subst. discriminate.
Qed.

Lemma rep_tag_no_tag : forall f p s, length s < f -> no_tag (rep_go m_tag f p s).
Proof.
  induction f as [|f IH]; intros p s Hl; [lia|].
  destruct s as [|c t]; [simpl; exact I|].
  rewrite rep_go_cons. simpl length in Hl.
  destruct (m_tag p (c :: t)) as [[[|k] r]|] eqn:E.
  - unfold m_tag in E. destruct (c =? 60)%N; [|discriminate].
    destruct (find_cs [62%N] t); discriminate.
  - pose proof (m_tag_repl _ _ _ _ E); subst r. simpl. split; [discriminate|].
    apply IH. rewrite length_skipn. lia.
  - simpl. split.
    + intros ->. unfold m_tag in E. rewrite N.eqb_refl in E.
      destruct (find_cs [62%N] t) eqn:E2; [discriminate|].
      apply Forall_not_In. apply (rep_go_forall m_tag (fun c => c <> 62%N)).
      * intros p' t' n r H. rewrite (m_tag_repl _ _ _ _ H). constructor; [discriminate|constructor].
      * apply not_In_Forall. apply find_cs_single_none; exact E2.
    + apply IH. lia.
Qed.

Lemma filter_angle_ws : forall w, Forall (fun c => is_ws c = true) w -> filter is_angle w = [].
Proof.
  induction w as [|c w IH]; intros H; [reflexivity|]. inversion H; subst. simpl.
  destruct (is_angle c) eqn:E; [|apply IH; assumption].
  unfold is_angle in E. apply orb_true_iff in E as [E|E]; apply N.eqb_eq in E; subst;
    discriminate.
Qed.

Lemma firstn_length_app {A} : forall (a b : list A), firstn (length a) (a ++ b) = a.
Proof. induction a as [|x a IH]; intros b; simpl; [reflexivity|]. rewrite IH; reflexivity. Qed.

Lemma m_ws_match p t n r : m_ws p t = Some (n, r) ->
  r = [32%N] /\ firstn n t = take_while is_ws t.
Proof.
  unfold m_ws. destruct (take_while is_ws t) as [|c w] eqn:E; [discriminate|].
  intro H; inversion H; subst. split; [reflexivity|].
  rewrite (take_while_app is_ws t) at 1. rewrite E. apply (firstn_length_app (c :: w)).
Qed.

Lemma rep_ws_head : forall f p s, hd_nws s -> hd_nws (rep_go m_ws f p s).
Proof.
  intros [|f] p s H; [exact H|]. destruct s as [|c t]; [simpl; exact I|].
  rewrite rep_go_cons. simpl in H.
  assert (Em : m_ws p (c :: t) = None) by (unfold m_ws; simpl; rewrite H; reflexivity).
  rewrite Em. exact H.
Qed.

Lemma rep_ws_norm : forall f p s, length s < f ->
  ws32 (rep_go m_ws f p s) /\ no_adj_ws (rep_go m_ws f p s).
Proof.
  induction f as [|f IH]; intros p s Hl; [lia|].
  destruct s as [|c t]; [simpl; split; [constructor|exact I]|].
  rewrite rep_go_cons. simpl length in Hl.
  destruct (is_ws c) eqn:E.
  - set (k := length (take_while is_ws t)).
    assert (Em : m_ws p (c :: t) = Some (S k, [32%N])) by (unfold m_ws; simpl; rewrite E; reflexivity).
    rewrite Em.
    assert (Hk : k <= length t) by (unfold k; rewrite (take_while_app is_ws t) at 2;
                                     rewrite length_app; lia).
    destruct (IH (Some (nth k t c)) (skipn k t)) as [H1 H2]; [rewrite length_skipn; lia|].
    pose proof (rep_ws_head f (Some (nth k t c)) (skipn k t)) as Hh.
    assert (Hs : hd_nws (skipn k t)).
    { pose proof (skipn_take_while_ws (c :: t)) as X. simpl in X. rewrite E in X. exact X. }
    specialize (Hh Hs). simpl app. split.
    + constructor; [reflexivity|exact H1].
    + destruct (rep_go m_ws f (Some (nth k t c)) (skipn k t)) as [|d l]; [exact I|].
      split; [right; exact Hh|exact H2].
  - assert (Em : m_ws p (c :: t) = None) by (unfold m_ws; simpl; rewrite E; reflexivity).
    rewrite Em.
    destruct (IH (Some c) t) as [H1 H2]; [lia|]. split.
    + constructor; [intro X; rewrite E in X; discriminate|exact H1].
    + destruct (rep_go m_ws f (Some c) t) as [|d l]; [exact I|].
      split; [left; exact E|exact H2].
Qed.

Lemma entities_id s : Forall (fun c => c <> 38%N) s -> replace_ms entity_decoders s = s.
Proof.
  intros H38. apply replace_ms_stable.
  eapply Forall_impl; [|exact entity_guard]. intros m Hg.
  apply (stable_of_guard m amp_at Hg).
  apply (all_suffixes_inv (Forall (fun c => c <> 38%N))).
  - apply Forall_tl.
  - intros t Ht. apply Forall_hd_not; exact Ht.
  - exact H38.
Qed.

Lemma replace_keeps (Q : N -> Prop) (m : matcher) s :
  (forall p t n r, m p t = Some (n, r) -> Forall Q r) -> Forall Q s -> Forall Q (replace m s).
Proof. intros Hm H. apply rep_go_forall; assumption. Qed.

Lemma repl_nil (Q : N -> Prop) (m : matcher) :
  (forall p t n r, m p t = Some (n, r) -> r = []) ->
  forall p t n r, m p t = Some (n, r) -> Forall Q r.
Proof. intros H p t n r E. rewrite (H _ _ _ _ E). constructor. Qed.

Lemma repl_space (Q : N -> Prop) (m : matcher) : Q 32%N ->
  (forall p t n r, m p t = Some (n, r) -> r = [32%N]) ->
  forall p t n r, m p t = Some (n, r) -> Forall Q r.
Proof. intros HQ H p t n r E. rewrite (H _ _ _ _ E). constructor; [exact HQ|constructor]. Qed.

Lemma infix_clean a m b :
  Forall (fun c => c <> 38%N) (a ++ m ++ b) -> no_tag (a ++ m ++ b) ->
  ws32 (a ++ m ++ b) -> no_adj_ws (a ++ m ++ b) ->
  Forall (fun c => c <> 38%N) m /\ no_tag m /\ ws32 m /\ no_adj_ws m.
Proof.
  unfold ws32. intros H1 H2 H3 H4.
  apply Forall_app in H1 as [_ H1]. apply Forall_app in H1 as [H1 _].
  apply Forall_app in H3 as [_ H3]. apply Forall_app in H3 as [H3 _].
  apply no_tag_app_r, no_tag_app_l in H2.
  apply no_adj_ws_app_r, no_adj_ws_app_l in H4.
  auto.
Qed.

Lemma normalize_clean x : has_amp x = false -> clean_text (extractTextFromHtml x).
Proof.
  intros Hx. apply has_amp_Forall in Hx. unfold extractTextFromHtml.
  set (Q := fun c => c <> 38%N).
  assert (Q32 : Q 32%N) by (unfold Q; discriminate).
  set (s1 := replace m_script x).
  assert (H1 : Forall Q s1) by (apply replace_keeps; [apply repl_nil; intros; eapply m_block_repl; eauto|exact Hx]).
  set (s2 := replace m_style s1).
  assert (H2 : Forall Q s2) by (apply replace_keeps; [apply repl_nil; intros; eapply m_block_repl; eauto|exact H1]).
  set (s3 := replace m_comment s2).
  assert (H3 : Forall Q s3) by (apply replace_keeps; [apply repl_nil, m_comment_repl|exact H2]).
  set (s4 := replace m_tag s3).
  assert (H4 : Forall Q s4) by (apply replace_keeps; [apply repl_space; [exact Q32|apply m_tag_repl]|exact H3]).
  assert (T4 : no_tag s4) by (apply rep_tag_no_tag; lia).
  rewrite (entities_id s4 H4).
  set (s6 := replace m_ws s4).
  assert (H6 : Forall Q s6) by (apply replace_keeps; [apply repl_space; [exact Q32|apply m_ws_repl]|exact H4]).
  assert (T6 : no_tag s6).
  { apply (proj2 (no_tag_filter s6)). unfold s6, replace. rewrite rep_go_filter.
    - apply (proj1 (no_tag_filter s4)); exact T4.
    - intros p t n r E. apply m_ws_match in E as [-> E]. rewrite E. split; [|reflexivity].
      apply filter_angle_ws, take_while_Forall. }
  destruct (rep_ws_norm (S (length s4)) None s4) as [W6 A6]; [lia|].
  fold (replace m_ws s4) in W6, A6. fold s6 in W6, A6.
  rewrite (replace_guarded m_nl2 (fun t => hd_error t = Some 10%N)
             (Forall (fun c => c <> 10%N)) s6 m_nl2_guard).
  2: apply Forall_tl. 2: apply Forall_hd_not. 2: apply ws32_no_nl; exact W6.
  destruct (trim_infix s6) as (a & b & E).
  rewrite E in H6, T6, W6, A6.
  destruct (infix_clean a (trim s6) b H6 T6 W6 A6) as (C1 & C2 & C3 & C4).
  repeat split; auto; apply trim_trimmed.
Qed.


(** ** Selectors on tag-free text *)

Lemma elem_at_no_tag attr nm s : no_tag s -> elem_at attr nm s = None.
Proof.
  intros H. destruct s as [|c t]; [reflexivity|]. simpl.
  destruct (c =? 60)%N eqn:E; [|reflexivity].
  destruct (find_cs [62%N] t) as [q|] eqn:E2; [|reflexivity].
  exfalso. apply N.eqb_eq in E. destruct H as [H _].
  exact (H E (find_cs_single_some _ _ _ E2)).
Qed.

Lemma exec_elem_no_tag attr nm : forall s, no_tag s -> exec_elem attr nm s = None.
Proof.
  induction s as [|c t IH]; intros H.
  - reflexivity.
  - change (exec_elem attr nm (c :: t)) with
      (match elem_at attr nm (c :: t) with Some g => Some g | None => exec_elem attr nm t end).
    rewrite elem_at_no_tag by exact H. apply IH. apply H.
Qed.

Lemma first_selector_no_tag html : no_tag html -> forall sels, first_selector html sels = None.
Proof.
  intros H. induction sels as [|sel sels IH]; [reflexivity|]. simpl.
  unfold try_selector, try_attr.
  destruct (sel_name 46%N sel); [rewrite exec_elem_no_tag by exact H|];
  (destruct (sel_name 35%N sel); [rewrite exec_elem_no_tag by exact H|]); exact IH.
Qed.

(** ** The scrapers *)

Lemma basicScrape_ok net url n st body :
  net n = FetchOk st body -> ((200 <=? st) && (st <=? 299))%N = true ->
  basicScrape net url n = (Ok (Some (extractTextFromHtml body)), S n).
Proof.
  intros E1 E2. unfold basicScrape, try_catch, bind, fetch. rewrite E1. simpl.
  rewrite E2. reflexivity.
Qed.

Lemma basicScrape_total net url n : exists r n', basicScrape net url n = (Ok r, n').
Proof.
  unfold basicScrape, try_catch, bind.
  destruct (fetch net url n) as [[[st body]|e] n1].
  - destruct ((200 <=? st) && (st <=? 299))%N; simpl; do 2 eexists; reflexivity.
  - simpl. do 2 eexists; reflexivity.
Qed.

Lemma targetedScrape_total net parse url host n :
  exists r n', targetedScrape net parse url host n = (Ok r, n').
Proof.
  unfold targetedScrape, try_catch.
  destruct (bind _ _ n) as [[r|e] n1]; simpl; do 2 eexists; reflexivity.
Qed.

Lemma specialized_no_tag parse html url :
  no_tag html -> extractSpecializedContent parse html url = None.
Proof.
  intros H. unfold extractSpecializedContent, extractSpecializedContent_body.
  destruct (parse url) as [h|]; [|reflexivity].
  destruct (getSiteConfig (to_lower h)) as [[d cfg]|]; [|reflexivity].
  rewrite first_selector_no_tag by exact H. reflexivity.
Qed.

Lemma targeted_fallback_clean y host : clean_text y -> targeted_fallback y host = y.
Proof.
  intros H. pose proof (clean_fixed y H) as Hf.
  unfold targeted_fallback, extractTargetedContent.
  destruct (find _ siteSelectors) as [[d sels]|]; [|exact Hf].
  rewrite first_selector_no_tag by apply H. exact Hf.
Qed.

Lemma dispatch_total net parse s url host n :
  exists r n', dispatch net parse s url host n = (Ok r, n').
Proof.
  unfold dispatch, bind.
  destruct (str_eqb s (u "basic")).
  { destruct (basicScrape_total net url n) as (r & n1 & ->). simpl; do 2 eexists; reflexivity. }
  destruct (str_eqb s (u "targeted")).
  { destruct (targetedScrape_total net parse url host n) as (r & n1 & ->). simpl; do 2 eexists; reflexivity. }
  destruct (targetedScrape_total net parse url host n) as (r & n1 & ->).
  destruct r as [t|].
  - destruct (length t <? 200).
    + destruct (basicScrape_total net url n1) as (r & n2 & ->). simpl; do 2 eexists; reflexivity.
    + simpl; do 2 eexists; reflexivity.
  - destruct (basicScrape_total net url n1) as (r & n2 & ->). simpl; do 2 eexists; reflexivity.
Qed.

(** ** The handler *)

Lemma handler_try_err net parse req n e n' :
  handler_try net parse req n = (Err e, n') -> e = TypeError.
Proof.
  unfold handler_try, bind. intro H.
  destruct (req_body req) as [b|]; simpl in H; [|inversion H; reflexivity].
  destruct (body_url b) as [[|c url]|]; simpl in H; try discriminate.
  destruct (parse (c :: url)) as [h|]; simpl in H; [|discriminate].
  destruct (dispatch_total net parse (strategy_of b) (c :: url) h n) as (r & n1 & E).
  rewrite E in H. destruct r as [co m]. discriminate.
Qed.

Lemma finish_200 url h co m s c url' len m' h' :
  finish url h co m = {| status := s; payload := PSuccess c url' len m' h' |} ->
  exists x, co = Some x /\ 100 <= length x /\ c = firstn 20000 (enhanceJobContent x h)
            /\ len = length c /\ url' = url /\ m' = m /\ h' = h /\ s = 200%N.
Proof.
  unfold finish. destruct co as [x|]; [|discriminate].
  destruct (length x <? 100) eqn:E; [discriminate|].
  remember (firstn 20000 (enhanceJobContent x h)) as L eqn:EL.
  intro H. injection H as Hs Hc Hu Hl Hm Hh. apply Nat.ltb_ge in E.
  exists x. subst. repeat split; exact E.
Qed.

Lemma handler_success net parse req n c url' len m h n' :
  handler net parse req n = (Ok {| status := 200; payload := PSuccess c url' len m h |}, n') ->
  exists b url co n1,
    req_body req = Some b /\ body_url b = Some url /\ parse url = Some h /\
    dispatch net parse (strategy_of b) url h n = (Ok (co, m), n1) /\
    finish url h co m = {| status := 200; payload := PSuccess c url' len m h |}.
Proof.
  unfold handler. destruct (str_eqb (req_method req) (u "OPTIONS")).
  { intro H; inversion H. }
  destruct (negb (str_eqb (req_method req) (u "POST"))).
  { intro H; inversion H. }
  unfold try_catch. destruct (handler_try net parse req n) as [[resp|e] n1] eqn:E.
  2:{ destruct e; intro H; inversion H. }
  intro H. inversion H; subst resp n1. clear H.
  unfold handler_try, bind in E.
  destruct (req_body req) as [b|]; simpl in E; [|discriminate].
  destruct (body_url b) as [[|c0 url]|] eqn:Eu; simpl in E; try (inversion E; fail).
  destruct (parse (c0 :: url)) as [h0|] eqn:Ep; simpl in E; [|inversion E].
  destruct (dispatch net parse (strategy_of b) (c0 :: url) h0 n) as [[[co m0]|e] n2] eqn:Ed;
    [|discriminate].
  simpl in E. inversion E as [Ef].
  destruct (finish_200 _ _ _ _ _ _ _ _ _ _ Ef) as (x & _ & _ & _ & _ & _ & Em & Eh & _).
  subst m0 h0.
  exists b, (c0 :: url), co, n2. repeat split; auto.
Qed.

(** ** Banners *)

Lemma enhance_source_prefix t h : exists r, enhanceJobContent t h = u "Source: " ++ r.
Proof.
  unfold enhanceJobContent. apply replace_rx_dead_prefix. vm_compute. reflexivity.
Qed.



Lemma enhance_input t h : u "Source: " ++ h ++ nl2 ++ t = source_banner h ++ t.
Proof. unfold source_banner. rewrite <- !app_assoc. reflexivity. Qed.

Lemma banner_dead_parts h : banner_dead h = true ->
  forall e, In e (enhance_noise ++ header_regexes) ->
  dead_along (rx e) None (source_banner h) /\ dead_along (rx e) (Some 10%N) (source_banner h).
Proof.
  unfold banner_dead. rewrite forallb_forall. intros H e He.
  pose proof (H e He) as H0. apply andb_true_iff in H0 as [H1 H2].
  split; apply rdead_along_sound; assumption.
Qed.

(** With a dead banner, the enhancer keeps [Source: <hostname>] and a
    blank line in front of its output. *)
Lemma enhance_banner t h : banner_dead h = true ->
  exists r, enhanceJobContent t h = source_banner h ++ r.
Proof.
  intros H. unfold enhanceJobContent. cbv zeta. rewrite enhance_input.
  apply replace_rx_prefix. apply Forall_forall. intros e He.
  apply (banner_dead_parts h H e He).
Qed.


Lemma hd_nws_rev_company comp :
  negb (is_ws (last comp 32%N)) = true -> hd_nws (rev (u "Company: " ++ comp)).
Proof.
  intro H. destruct comp as [|c comp]; [discriminate|].
  destruct (exists_last (l := c :: comp) ltac:(discriminate)) as (l' & a & E).
  rewrite E in H |- *. rewrite last_last in H. rewrite rev_app_distr, rev_app_distr.
  simpl. apply negb_true_iff; exact H.
Qed.

Lemma company_banner_kept comp cleaned :
  company_line_dead comp = true ->
  exists r, clean_tail (u "Company: " ++ comp ++ nl2 ++ cleaned) = u "Company: " ++ comp ++ r.
Proof.
  unfold company_line_dead. intro H.
  apply andb_true_iff in H as [H H3]. apply andb_true_iff in H as [H1 H2].
  unfold clean_tail. rewrite app_assoc, replace_rx_app.
  assert (E1 : u "Company: " ++ comp ++ nl2 ++ cleaned
               = (u "Company: " ++ comp ++ [10%N]) ++ 10%N :: cleaned).
  { rewrite <- !app_assoc. reflexivity. }
  rewrite E1. destruct (replace_rx_dead_prefix _ _ (10%N :: cleaned) H1) as [r1 ->].
  assert (E2 : (u "Company: " ++ comp ++ [10%N]) ++ r1 = (u "Company: " ++ comp) ++ 10%N :: r1).
  { rewrite <- !app_assoc. reflexivity. }
  rewrite E2. destruct (replace_rx_dead_prefix [RNl3] (u "Company: " ++ comp) (10%N :: r1)) as [r2 ->].
  { change (rdead_along RNl3 None (u "Company: " ++ comp) && true = true). rewrite H2. reflexivity. }
  destruct (trim_prefix (u "Company: " ++ comp) r2) as [r3 ->].
  - reflexivity.
  - apply hd_nws_rev_company; exact H3.
  - discriminate.
  - exists r3. rewrite <- app_assoc. reflexivity.
Qed.

Lemma registry_company_lines : forallb (fun '(_, cfg) => company_line_dead (company cfg))
                                       SPECIALIZED_CONFIGS = true.
Proof. vm_compute. reflexivity. Qed.

Lemma finish_status url h co m : status (finish url h co m) = 200%N \/ status (finish url h co m) = 400%N.
Proof.
  unfold finish. destruct co as [x|]; [|right; reflexivity].
  destruct (length x <? 100); [right|left]; reflexivity.
Qed.

Lemma handler_try_status net parse req n resp n' :
  handler_try net parse req n = (Ok resp, n') -> status resp = 200%N \/ status resp = 400%N.
Proof.
  unfold handler_try, bind. intro H.
  destruct (req_body req) as [b|]; simpl in H; [|discriminate].
  destruct (body_url b) as [[|c url]|]; simpl in H;
    try (injection H as <- _; right; reflexivity).
  destruct (parse (c :: url)) as [h|]; simpl in H; [|injection H as <- _; right; reflexivity].
  destruct (dispatch net parse (strategy_of b) (c :: url) h n) as [[[co m]|e] n1];
    [|discriminate].
  injection H as <- _. apply finish_status.
Qed.

Lemma str_eqb_refl a : str_eqb a a = true.
Proof. unfold str_eqb. destruct (list_eq_dec N.eq_dec a a); [reflexivity|contradiction]. Qed.

Lemma str_eqb_true a b : str_eqb a b = true -> a = b.
Proof. unfold str_eqb. destruct (list_eq_dec N.eq_dec a b); [auto|discriminate]. Qed.

Lemma str_eqb_post_options : str_eqb (u "POST") (u "OPTIONS") = false.
Proof. vm_compute. reflexivity. Qed.

Lemma str_eqb_targeted_basic : str_eqb (u "targeted") (u "basic") = false.
Proof. vm_compute. reflexivity. Qed.

Lemma dispatch_targeted net parse s url h n :
  str_eqb s (u "basic") = false -> str_eqb s (u "targeted") = true ->
  dispatch net parse s url h n
  = match targetedScrape net parse url h n with
    | (Ok c, n') => (Ok (c, targeted_tag h), n')
    | (Err e, n') => (Err e, n')
    end.
Proof. intros H1 H2. unfold dispatch. rewrite H1, H2. reflexivity. Qed.

(** ** C1 *)

(** C1 (amended): a 200 answer of the endpoint reports the length of the
    content it sends, and that content has at most 20000 units; it is the
    enhancer's output, truncated, on the text that the strategy run for this
    request (on the request's url and hostname) returned, and that text has
    at least 100 units; the 100-unit bound holds before the enhancer, not
    on [content]. *)
Theorem ok_response_bounds net parse req n c url len m h n' :
  handler net parse req n = (Ok {| status := 200; payload := PSuccess c url len m h |}, n') ->
  len = length c /\ length c <= 20000 /\
  exists b x n1,
    req_body req = Some b /\ body_url b = Some url /\ parse url = Some h
    /\ dispatch net parse (strategy_of b) url h n = (Ok (Some x, m), n1)
    /\ 100 <= length x /\ c = firstn 20000 (enhanceJobContent x h).
Proof.
  intro H.
  destruct (handler_success _ _ _ _ _ _ _ _ _ _ H)
    as (b & url0 & co & n1 & Hb & Hu & Hp & Hd & Ef).
  destruct (finish_200 _ _ _ _ _ _ _ _ _ _ Ef) as (x & Hco & Hx & Hc & Hl & Hurl & _).
  subst co url.
  split; [exact Hl|]. split.
  - rewrite Hc, length_firstn. apply Nat.le_min_l.
  - exists b, x, n1. repeat split; assumption.
Qed.

Lemma ok_response_bounds_witness :
  23 = length (u "Source: a.b" ++ nl2 ++ repeat 32%N 10)
  /\ length (u "Source: a.b" ++ nl2 ++ repeat 32%N 10) <= 20000
  /\ exists b x n1,
       req_body (post "https://a.b/" "basic") = Some b
       /\ body_url b = Some (u "https://a.b/")
       /\ parse_http_url (u "https://a.b/") = Some (u "a.b")
       /\ dispatch (serve apply_now_page) parse_http_url (strategy_of b) (u "https://a.b/")
            (u "a.b") 0 = (Ok (Some x, u "basic"), n1)
       /\ 100 <= length x
       /\ u "Source: a.b" ++ nl2 ++ repeat 32%N 10 = firstn 20000 (enhanceJobContent x (u "a.b")).
Proof.
  apply (ok_response_bounds (serve apply_now_page) parse_http_url (post "https://a.b/" "basic") 0
           _ (u "https://a.b/") 23 (u "basic") (u "a.b") 1).
  vm_compute. reflexivity.
Defined.

(** A page of eleven [Apply now] is accepted (110 units of text) and
    answered with 200 and a 23-unit content: the enhancer removes the
    phrases after the length check. *)
Lemma short_ok_response :
  handler (serve apply_now_page) parse_http_url (post "https://a.b/" "basic") 0
  = (Ok {| status := 200;
           payload := PSuccess (u "Source: a.b" ++ nl2 ++ repeat 32%N 10) (u "https://a.b/")
                               23 (u "basic") (u "a.b") |}, 1)
  /\ length (u "Source: a.b" ++ nl2 ++ repeat 32%N 10) < 100.
Proof. split; [vm_compute; reflexivity|apply Nat.ltb_lt; reflexivity]. Qed.

(** ** C2 *)

(** C2: the endpoint never answers 408, whatever the network does: a
    fetch timeout is caught by [basicScrape], which yields no content. *)
Theorem timeout_not_408 net parse req n r n' :
  handler net parse req n = (Ok r, n') -> status r <> 408%N.
Proof.
  unfold handler. destruct (str_eqb (req_method req) (u "OPTIONS")).
  { intro H. injection H as <- _. discriminate. }
  destruct (negb (str_eqb (req_method req) (u "POST"))).
  { intro H. injection H as <- _. discriminate. }
  unfold try_catch. destruct (handler_try net parse req n) as [[resp|e] n1] eqn:E.
  - intro H. injection H as <- _.
    destruct (handler_try_status _ _ _ _ _ _ E) as [-> | ->]; discriminate.
  - apply handler_try_err in E. subst e. intro H. injection H as <- _. discriminate.
Qed.

Lemma timeout_not_408_witness :
  handler (fun _ => FetchTimeout) parse_http_url (post "https://a.b/" "basic") 0
  = (Ok {| status := 400;
           payload := PError (u "Could not extract meaningful content from webpage")
                             (Some (u "basic")) None |}, 1)
  /\ 400%N <> 408%N.
Proof.
  split; [vm_compute; reflexivity|].
  apply (timeout_not_408 (fun _ => FetchTimeout) parse_http_url (post "https://a.b/" "basic") 0
           {| status := 400;
              payload := PError (u "Could not extract meaningful content from webpage")
                                (Some (u "basic")) None |} 1).
  vm_compute. reflexivity.
Defined.

(** ** C3 *)

(** On a 2xx page without [&], [targetedScrape] returns the normalized
    text of the whole page (or [null] when it is empty). *)
Lemma targetedScrape_page_text net parse url host n st body :
  net n = FetchOk st body -> ((200 <=? st) && (st <=? 299))%N = true ->
  has_amp body = false ->
  targetedScrape net parse url host n
  = (Ok (match extractTextFromHtml body with [] => None | y => Some y end), S n).
Proof.
  intros Hn Hs Ha.
  pose proof (basicScrape_ok net url n st body Hn Hs) as Hb.
  pose proof (normalize_clean body Ha) as Hc.
  assert (Ht : no_tag (extractTextFromHtml body)) by apply Hc.
  unfold targetedScrape, try_catch, bind at 1. rewrite Hb. cbv beta iota.
  destruct (extractTextFromHtml body) as [|c y] eqn:E; [reflexivity|].
  unfold ret. rewrite specialized_no_tag by exact Ht.
  rewrite targeted_fallback_clean by exact Hc. reflexivity.
Qed.

Lemma finish_empty url h m : finish url h None m = finish url h (Some []) m.
Proof. reflexivity. Qed.

(** C3 (the code diverges): under strategy [targeted], for a hostname of
    the registry and a 2xx page without [&], the endpoint answers with the
    normalized text of the whole page, whatever selectors the site has,
    tagged [specialized-targeted]: [targetedScrape] hands the tag-free text
    of [basicScrape] to the selector matchers, which need markup. *)
Theorem targeted_answers_page_text net parse req n b url h st body :
  str_eqb (req_method req) (u "POST") = true -> req_body req = Some b ->
  body_url b = Some url -> url <> [] -> parse url = Some h ->
  strategy_of b = u "targeted" -> hasSpecializedScraper h = true ->
  net n = FetchOk st body -> ((200 <=? st) && (st <=? 299))%N = true ->
  has_amp body = false ->
  handler net parse req n
  = (Ok (finish url h (Some (extractTextFromHtml body)) (u "specialized-targeted")), S n).
Proof.
  intros Hp Hb Hu Hne Hh Hs Hsp Hn Hst Ha.
  assert (Ho : str_eqb (req_method req) (u "OPTIONS") = false).
  { apply str_eqb_true in Hp. rewrite Hp. exact str_eqb_post_options. }
  unfold handler. rewrite Ho, Hp.
  unfold try_catch, handler_try, bind. rewrite Hb. cbv [negb ret]. cbv beta iota.
  rewrite Hu. destruct url as [|c0 url]; [contradiction|].
  rewrite Hh. rewrite Hs, dispatch_targeted by (apply str_eqb_targeted_basic || apply str_eqb_refl).
  rewrite (targetedScrape_page_text net parse (c0 :: url) h n st body Hn Hst Ha).
  unfold targeted_tag. rewrite Hsp.
  destruct (extractTextFromHtml body) as [|y ys]; reflexivity.
Qed.

Lemma targeted_answers_page_text_witness :
  handler (serve google_page) parse_http_url (post "https://careers.google.com/jobs/1" "targeted") 0
  = (Ok (finish (u "https://careers.google.com/jobs/1") (u "careers.google.com")
                (Some (extractTextFromHtml google_page)) (u "specialized-targeted")), 1)
  /\ includes (extractTextFromHtml google_page) nav_text = true
  /\ includes (extractTextFromHtml google_page) footer_text = true.
Proof.
  split; [|split; vm_compute; reflexivity].
  apply (targeted_answers_page_text (serve google_page) parse_http_url
           (post "https://careers.google.com/jobs/1" "targeted") 0
           {| body_url := Some (u "https://careers.google.com/jobs/1");
              body_strategy := Some (u "targeted") |}
           (u "https://careers.google.com/jobs/1") (u "careers.google.com") 200 google_page);
    try (vm_compute; reflexivity).
  discriminate.
Defined.

(** On a [careers.google.com] page with a [.job-description] block,
    strategy [targeted] answers with the navigation and footer text, and
    tags it [specialized-targeted], not [specialized-careers.google.com]. *)
Lemma google_targeted_keeps_nav :
  handler (serve google_page) parse_http_url (post "https://careers.google.com/jobs/1" "targeted") 0
  = (Ok {| status := 200;
           payload := PSuccess google_content (u "https://careers.google.com/jobs/1") 2530
                               (u "specialized-targeted") (u "careers.google.com") |}, 1)
  /\ includes google_content nav_text = true
  /\ includes google_content footer_text = true
  /\ includes google_content job_text = true.
Proof. vm_compute. repeat split. Qed.

(** ** C4 *)

(** C4 (amended): on a text without [&], the normalizer is idempotent. *)
Theorem normalize_idempotent_no_amp x :
  has_amp x = false -> extractTextFromHtml (extractTextFromHtml x) = extractTextFromHtml x.
Proof. intro H. apply clean_fixed, normalize_clean, H. Qed.

Lemma normalize_idempotent_no_amp_witness :
  has_amp google_page = false /\
  extractTextFromHtml (extractTextFromHtml google_page) = extractTextFromHtml google_page.
Proof.
  split; [vm_compute; reflexivity|].
  apply normalize_idempotent_no_amp. vm_compute. reflexivity.
Defined.

(** Escaped markup is decoded by the first pass and removed by the
    second. *)
Lemma normalize_not_idempotent :
  extractTextFromHtml (u "&lt;b&gt;") = u "<b>" /\ extractTextFromHtml (u "<b>") = [].
Proof. split; vm_compute; reflexivity. Qed.

(** ** C5 *)





Lemma str_eqb_auto_basic : str_eqb (u "auto") (u "basic") = false.
Proof. vm_compute. reflexivity. Qed.

Lemma str_eqb_auto_targeted : str_eqb (u "auto") (u "targeted") = false.
Proof. vm_compute. reflexivity. Qed.

Lemma dispatch_auto net parse url h n t n1 :
  targetedScrape net parse url h n = (Ok t, n1) ->
  (t = None \/ exists x, t = Some x /\ length x < 200) ->
  dispatch net parse (u "auto") url h n
  = match basicScrape net url n1 with
    | (Ok c, n2) => (Ok (c, u "basic-fallback"), n2)
    | (Err e, n2) => (Err e, n2)
    end.
Proof.
  intros Ht Hc. unfold dispatch. rewrite str_eqb_auto_basic, str_eqb_auto_targeted.
  unfold bind at 1. rewrite Ht.
  destruct Hc as [->|(x & -> & Hx)].
  - reflexivity.
  - apply Nat.ltb_lt in Hx. cbv beta iota. rewrite Hx. reflexivity.
Qed.

(** ** C6 *)

(** C6: the registry lookup strips the first [www.] of the hostname
    wherever it occurs, not only a leading one: the hostname
    [jobs.www.apple.com] is given the [jobs.apple.com] entry, which the
    rule with a leading [www.] does not give it. ([SpecializedScraper]'s
    registry lists the same fragments in the same order as
    [SPECIALIZED_CONFIGS], and the same rule selects among them.) *)
Theorem www_anywhere_lookup :
  parse_http_url (u "https://jobs.www.apple.com/") = Some (u "jobs.www.apple.com")
  /\ getSiteConfig_url parse_http_url (u "https://jobs.www.apple.com/")
     = hd_error SPECIALIZED_CONFIGS
  /\ option_map fst (hd_error SPECIALIZED_CONFIGS) = Some (u "jobs.apple.com")
  /\ spec_getSiteConfig (u "jobs.www.apple.com") = None.
Proof. vm_compute. repeat split. Qed.

(** ** C7 *)

(** C7: under [auto], when the targeted result is [None] or shorter than
    200 units, the handler runs [basicScrape] again and answers with its
    result under the method [basic-fallback]. *)
Theorem auto_falls_back net parse req n b url host t n1 c n2 :
  req_method req = u "POST" -> req_body req = Some b -> body_url b = Some url ->
  url <> [] -> parse url = Some host -> strategy_of b = u "auto" ->
  targetedScrape net parse url host n = (Ok t, n1) ->
  (t = None \/ exists x, t = Some x /\ length x < 200) ->
  basicScrape net url n1 = (Ok c, n2) ->
  handler net parse req n = (Ok (finish url host c (u "basic-fallback")), n2).
Proof.
  intros Hm Hb Hu Hne Hp Hs Ht Hc Hbs.
  unfold handler. rewrite Hm, str_eqb_post_options, str_eqb_refl. cbn [negb].
  unfold try_catch, handler_try, bind, ret. rewrite Hb.
  destruct url as [|a url']; [congruence|].
  rewrite Hu, Hp, Hs, (dispatch_auto _ _ _ _ _ _ _ Ht Hc), Hbs. reflexivity.
Qed.

Lemma auto_falls_back_witness :
  handler (serve (rep 15 (u "Apply now "))) parse_http_url (post "https://a.b/" "auto") 0
  = (Ok (finish (u "https://a.b/") (u "a.b")
                (Some (extractTextFromHtml (rep 15 (u "Apply now "))))
                (u "basic-fallback")), 2).
Proof.
  apply (auto_falls_back _ _ _ _
           {| body_url := Some (u "https://a.b/"); body_strategy := Some (u "auto") |}
           _ _ (Some (extractTextFromHtml (rep 15 (u "Apply now ")))) 1).
  - reflexivity.
  - reflexivity.
  - reflexivity.
  - discriminate.
  - vm_compute. reflexivity.
  - reflexivity.
  - vm_compute. reflexivity.
  - right. eexists. split; [reflexivity|]. vm_compute. apply Nat.ltb_lt. reflexivity.
  - vm_compute. reflexivity.
Defined.

(** ** C8 *)

(** C8 (the code diverges): [cleanJobContent] adds no [Company:] line
    when the company's name already occurs, case-insensitively, in the
    whitespace-normalized text; for every company of the registry, when the
    name does not occur, its answer starts with [Company: <name>]; but
    [enhanceJobContent] has no such test: its output always starts with
    [Source: ], and with [Source: <hostname>] and a blank line when no
    enhancer regex can match inside the banner, whatever the text holds. *)
Theorem banner_rules :
  (forall t comp,
     company_present (trim (replace m_ws t)) comp = true ->
     cleanJobContent t comp = clean_tail (trim (replace m_ws t)))
  /\ (forall d cfg t,
        In (d, cfg) SPECIALIZED_CONFIGS ->
        company_present (trim (replace m_ws t)) (company cfg) = false ->
        exists r, cleanJobContent t (company cfg) = u "Company: " ++ company cfg ++ r)
  /\ (forall t h, exists r, enhanceJobContent t h = u "Source: " ++ r)
  /\ (forall t h, banner_dead h = true ->
        exists r, enhanceJobContent t h = source_banner h ++ r).
Proof.
  split; [|split; [|split]].
  - intros t comp H. unfold cleanJobContent. cbv zeta. rewrite H. reflexivity.
  - intros d cfg t Hin H. unfold cleanJobContent. cbv zeta. rewrite H. cbn [negb].
    apply company_banner_kept.
    pose proof (proj1 (forallb_forall _ _) registry_company_lines _ Hin) as Hd.
    exact Hd.
  - exact enhance_source_prefix.
  - exact enhance_banner.
Qed.

Lemma banner_rules_witness :
  cleanJobContent (u "Google is hiring") (u "Google")
  = clean_tail (trim (replace m_ws (u "Google is hiring")))
  /\ (exists r, cleanJobContent (u "We hire") (u "Google") = u "Company: Google" ++ r)
  /\ (exists r, enhanceJobContent (u "careers.google.com posting") (u "careers.google.com")
                = source_banner (u "careers.google.com") ++ r).
Proof.
  split; [|split].
  - apply (proj1 banner_rules). vm_compute. reflexivity.
  - apply (proj1 (proj2 banner_rules) (u "careers.google.com")
             (mk_config ["[data-section='description']"; ".job-description";
                         ".gc-job-detail__content"]
                        [".gc-job-detail__apply"; ".gc-job-detail__share"; "nav"; "footer"]
                        "Google")%string).
    + vm_compute. right. left. reflexivity.
    + vm_compute. reflexivity.
  - apply (proj2 (proj2 (proj2 banner_rules))). vm_compute. reflexivity.
Defined.

Lemma source_banner_duplicated :
  includes (to_lower (u "careers.google.com posting")) (to_lower (u "careers.google.com")) = true
  /\ enhanceJobContent (u "careers.google.com posting") (u "careers.google.com")
     = u "Source: " ++ u "careers.google.com" ++ nl2 ++ u "careers.google.com posting".
Proof. split; vm_compute; reflexivity. Qed.

(** ** C9 *)

(** C9: the normalizer answers a string on every JavaScript value, the
    empty string when its body throws; the extraction steps that catch
    their exceptions ([basicScrape], [targetedScrape]) always answer
    normally, and [extractSpecializedContent] and the registry lookup
    answer [None] when the body throws or the URL does not parse. *)
Theorem never_raises :
  (forall v, extractTextFromHtml_js v
             = Ok (match v with JStr s => extractTextFromHtml s | _ => [] end))
  /\ (forall v e, extractTextFromHtml_body v = Err e -> extractTextFromHtml_js v = Ok [])
  /\ (forall net url n, exists r n', basicScrape net url n = (Ok r, n'))
  /\ (forall net parse url host n, exists r n', targetedScrape net parse url host n = (Ok r, n'))
  /\ (forall parse html url e,
        extractSpecializedContent_body parse html url = Err e ->
        extractSpecializedContent parse html url = None)
  /\ (forall parse url, parse url = None -> getSiteConfig_url parse url = None).
Proof.
  repeat split.
  - intros [s| | |z]; reflexivity.
  - intros v e H. unfold extractTextFromHtml_js. rewrite H. reflexivity.
  - exact basicScrape_total.
  - exact targetedScrape_total.
  - intros parse html url e H. unfold extractSpecializedContent. rewrite H. reflexivity.
  - intros parse url H. unfold getSiteConfig_url. rewrite H. reflexivity.
Qed.

Lemma never_raises_witness :
  extractTextFromHtml_js JNull = Ok []
  /\ extractSpecializedContent (fun _ => None) google_page (u "not a url") = None.
Proof.
  split.
  - apply (proj1 (proj2 never_raises) JNull TypeError). reflexivity.
  - apply (proj1 (proj2 (proj2 (proj2 (proj2 never_raises)))) _ _ _ TypeError).
    reflexivity.
Defined.

(** ** C10 *)

(** C10 (amended): when the fetched page has no [&], the string that
    [targetedScrape] hands to the selector code is the normalizer's output,
    which has no tag; no selector captures anything on it, and
    [targetedScrape] answers that text itself. *)
Theorem targeted_sees_text net parse url host n st body :
  net n = FetchOk st body -> ((200 <=? st) && (st <=? 299))%N = true ->
  has_amp body = false ->
  basicScrape net url n = (Ok (Some (extractTextFromHtml body)), S n)
  /\ no_tag (extractTextFromHtml body)
  /\ (forall sels, first_selector (extractTextFromHtml body) sels = None)
  /\ extractSpecializedContent parse (extractTextFromHtml body) url = None
  /\ targetedScrape net parse url host n
     = (Ok (match extractTextFromHtml body with [] => None | y => Some y end), S n).
Proof.
  intros Hn Hs Ha.
  pose proof (basicScrape_ok net url n st body Hn Hs) as Hb.
  pose proof (normalize_clean body Ha) as Hc.
  assert (Ht : no_tag (extractTextFromHtml body)) by apply Hc.
  split; [exact Hb|]. split; [exact Ht|]. split; [apply first_selector_no_tag; exact Ht|].
  split; [apply specialized_no_tag; exact Ht|].
  unfold targetedScrape, try_catch, bind at 1. rewrite Hb. cbv beta iota.
  destruct (extractTextFromHtml body) as [|c y] eqn:E; [reflexivity|].
  unfold ret. rewrite specialized_no_tag by exact Ht.
  rewrite targeted_fallback_clean by exact Hc. reflexivity.
Qed.

Lemma targeted_sees_text_witness :
  targetedScrape (serve google_page) parse_http_url (u "https://careers.google.com/jobs/1")
    (u "careers.google.com") 0
  = (Ok (Some (extractTextFromHtml google_page)), 1).
Proof.
  destruct (targeted_sees_text (serve google_page) parse_http_url
              (u "https://careers.google.com/jobs/1") (u "careers.google.com") 0 200
              google_page eq_refl eq_refl ltac:(vm_compute; reflexivity))
    as (_ & _ & _ & _ & E).
  rewrite E. vm_compute. reflexivity.
Defined.

Lemma escaped_page_selected :
  has_amp escaped_page = true
  /\ exec_elem (u "class") (u "job-description") (extractTextFromHtml escaped_page)
     = Some job_text
  /\ targetedScrape (serve escaped_page) parse_http_url
       (u "https://careers.google.com/jobs/1") (u "careers.google.com") 0
     = (Ok (Some (u "Company: Google" ++ nl2 ++ job_text)), 1).
Proof. repeat split; vm_compute; reflexivity. Qed.

(** * Further properties of the code *)

(** ** The whitespace stage shared by the three normalizers *)

Lemma ws_stage_clean s :
  ws32 (trim (replace m_nl2 (replace m_ws s)))
  /\ no_adj_ws (trim (replace m_nl2 (replace m_ws s)))
  /\ trimmed (trim (replace m_nl2 (replace m_ws s))).
Proof.
  destruct (rep_ws_norm (S (length s)) None s) as [W A]; [lia|].
  fold (replace m_ws s) in W, A. set (s6 := replace m_ws s) in *.
  rewrite (replace_guarded m_nl2 (fun t => hd_error t = Some 10%N)
             (Forall (fun c => c <> 10%N)) s6 m_nl2_guard).
  2: apply Forall_tl. 2: apply Forall_hd_not. 2: apply ws32_no_nl; exact W.
  destruct (trim_infix s6) as (a & b & E).
  rewrite E in W, A. unfold ws32 in *.
  apply Forall_app in W as [_ W]. apply Forall_app in W as [W _].
  apply no_adj_ws_app_r, no_adj_ws_app_l in A.
  split; [exact W|]. split; [exact A|]. apply trim_trimmed.
Qed.

Lemma pre_entities_no_amp x :
  Forall (fun c => c <> 38%N) x ->
  Forall (fun c => c <> 38%N)
         (replace m_tag (replace m_comment (replace m_style (replace m_script x)))).
Proof.
  intro Hx. set (Q := fun c => c <> 38%N).
  assert (Q32 : Q 32%N) by (unfold Q; discriminate).
  apply replace_keeps; [apply repl_space; [exact Q32|apply m_tag_repl]|].
  apply replace_keeps; [apply repl_nil, m_comment_repl|].
  apply replace_keeps; [apply repl_nil; intros; eapply m_block_repl; eauto|].
  apply replace_keeps; [apply repl_nil; intros; eapply m_block_repl; eauto|exact Hx].
Qed.

Lemma decoders_id ds s :
  Forall (fun m => forall p t x, m p t = Some x -> amp_at t) ds ->
  Forall (fun c => c <> 38%N) s -> replace_ms ds s = s.
Proof.
  intros Hg H38. apply replace_ms_stable.
  eapply Forall_impl; [|exact Hg]. intros m Hm.
  apply (stable_of_guard m amp_at Hm).
  apply (all_suffixes_inv (Forall (fun c => c <> 38%N))).
  - apply Forall_tl.
  - intros t Ht. apply Forall_hd_not; exact Ht.
  - exact H38.
Qed.

Lemma proxy_guard :
  Forall (fun m => forall p s x, m p s = Some x -> amp_at s) proxy_entity_decoders.
Proof. repeat constructor; intros p s x H; apply (m_lit_guard _ _ _ _ _ _ H). Qed.

Lemma vercel_guard :
  Forall (fun m => forall p s x, m p s = Some x -> amp_at s) vercel_entity_decoders.
Proof. repeat constructor; intros p s x H; apply (m_lit_guard _ _ _ _ _ _ H). Qed.

(** Every normalizer of the repository, on every input, answers a text
    whose only whitespace units are single spaces between non-whitespace
    units: no line break, no run of two whitespace units, none at either
    end. *)
Theorem normalizers_whitespace x :
  (ws32 (extractTextFromHtml x) /\ no_adj_ws (extractTextFromHtml x)
   /\ trimmed (extractTextFromHtml x))
  /\ (ws32 (extractTextFromHtml_proxy x) /\ no_adj_ws (extractTextFromHtml_proxy x)
      /\ trimmed (extractTextFromHtml_proxy x))
  /\ (ws32 (extractTextFromHtml_vercel x) /\ no_adj_ws (extractTextFromHtml_vercel x)
      /\ trimmed (extractTextFromHtml_vercel x)).
Proof.
  unfold extractTextFromHtml, extractTextFromHtml_proxy, extractTextFromHtml_vercel.
  cbv zeta. split; [|split]; apply ws_stage_clean.
Qed.

(** On a page without [&], the three normalizers give the same text: the
    entity chains where they differ never fire. *)
Theorem normalizers_agree_without_amp x :
  has_amp x = false ->
  extractTextFromHtml_proxy x = extractTextFromHtml x
  /\ extractTextFromHtml_vercel x = extractTextFromHtml x.
Proof.
  intro H. apply has_amp_Forall, pre_entities_no_amp in H.
  unfold extractTextFromHtml, extractTextFromHtml_proxy, extractTextFromHtml_vercel.
  cbv zeta.
  rewrite (decoders_id _ _ proxy_guard H), (decoders_id _ _ vercel_guard H),
          (entities_id _ H).
  split; reflexivity.
Qed.

Lemma normalizers_agree_without_amp_witness :
  extractTextFromHtml_proxy google_page = extractTextFromHtml google_page
  /\ extractTextFromHtml_vercel google_page = extractTextFromHtml google_page.
Proof. apply normalizers_agree_without_amp. vm_compute. reflexivity. Defined.

(** ** The Vercel function of the development file *)

(** A 200 answer of the development [handler] comes from one successful
    fetch of a page of at least 100 units, and carries the first 15000
    units of its normalized text, which has at least 100 units, with its
    length. *)
Theorem dev_handler_success net parse req n c url len n' :
  dev_handler net parse req n
  = (Ok {| dev_status := 200; dev_payload := DevSuccess c url len |}, n') ->
  exists st t html,
    net n = DevOk st t html /\ dev_ok st = true /\ 100 <= length html /\ n' = S n
    /\ c = firstn 15000 (extractTextFromHtml_vercel html)
    /\ 100 <= length c <= 15000 /\ len = length c.
Proof.
  unfold dev_handler. intro H.
  destruct (str_eqb (req_method req) (u "OPTIONS")); [discriminate H|].
  destruct (negb (str_eqb (req_method req) (u "POST"))); [discriminate H|].
  destruct (req_body req) as [b|].
  2:{ unfold dev_catch in H. destruct (str_eqb (u "TypeError") (u "AbortError")); discriminate H. }
  destruct (body_url b) as [[|a url0]|]; [discriminate H| |discriminate H].
  destruct (parse (a :: url0)) as [h|]; [|discriminate H].
  destruct (net n) as [st t html|name code msg] eqn:En.
  2:{ unfold dev_catch in H.
      destruct (str_eqb name (u "AbortError")); [discriminate H|].
      destruct (match code with Some c0 => _ | None => false end); discriminate H. }
  destruct (dev_ok st) eqn:Eok.
  2:{ exfalso. unfold dev_ok in Eok. injection H as Hs _ _. subst st.
      vm_compute in Eok. discriminate Eok. }
  simpl negb in H. cbv iota in H.
  destruct (length html <? 100) eqn:El; [discriminate H|].
  destruct (length (extractTextFromHtml_vercel html) <? 100) eqn:Et; [discriminate H|].
  remember (firstn 15000 (extractTextFromHtml_vercel html)) as L eqn:EL.
  injection H as Hc Hu Hl Hn. subst.
  apply Nat.ltb_ge in El. apply Nat.ltb_ge in Et.
  exists st, t, html. repeat split; auto.
  - rewrite length_firstn. apply Nat.min_glb; [apply Nat.leb_le; vm_compute; reflexivity|exact Et].
  - rewrite length_firstn. apply Nat.le_min_l.
Qed.

Lemma dev_handler_success_witness :
  exists st t html,
    serve_dev google_page 0 = DevOk st t html /\ dev_ok st = true /\ 100 <= length html
    /\ 1 = S 0
    /\ firstn 15000 (extractTextFromHtml_vercel google_page)
       = firstn 15000 (extractTextFromHtml_vercel html)
    /\ 100 <= length (firstn 15000 (extractTextFromHtml_vercel google_page)) <= 15000
    /\ 2502 = length (firstn 15000 (extractTextFromHtml_vercel google_page)).
Proof.
  apply (dev_handler_success (serve_dev google_page) parse_http_url (post "https://a.b/" "auto") 0
           _ (u "https://a.b/") 2502 1).
  vm_compute. reflexivity.
Defined.

Lemma dev_catch_status name code msg :
  In (dev_status (dev_catch name code msg)) [200; 400; 405; 408; 500]%N.
Proof.
  unfold dev_catch. destruct (str_eqb name (u "AbortError")); [simpl; tauto|].
  destruct (match code with Some c => _ | None => false end); simpl; tauto.
Qed.

(** Every answer of the development [handler] has status 200, 400, 405,
    408 or 500, or is the non-2xx status of the fetched response; the
    function fetches at most once, and only for a POST whose body holds a
    non-empty URL that parses. *)
Theorem dev_handler_status net parse req n r n' :
  dev_handler net parse req n = (Ok r, n') ->
  (In (dev_status r) [200; 400; 405; 408; 500]%N
   \/ exists st t html, net n = DevOk st t html /\ dev_ok st = false /\ dev_status r = st)
  /\ (n' = n \/ (n' = S n /\ exists b url h, req_body req = Some b /\ body_url b = Some url
                                             /\ url <> [] /\ parse url = Some h)).
Proof.
  unfold dev_handler. intro H.
  destruct (str_eqb (req_method req) (u "OPTIONS")).
  { injection H as <- <-. split; [left; simpl; tauto|left; reflexivity]. }
  destruct (negb (str_eqb (req_method req) (u "POST"))).
  { injection H as <- <-. split; [left; simpl; tauto|left; reflexivity]. }
  destruct (req_body req) as [b|] eqn:Eb.
  2:{ injection H as <- <-. split; [left; apply dev_catch_status|left; reflexivity]. }
  destruct (body_url b) as [[|a url0]|] eqn:Eu;
    [injection H as <- <-; split; [left; simpl; tauto|left; reflexivity]| |
     injection H as <- <-; split; [left; simpl; tauto|left; reflexivity]].
  destruct (parse (a :: url0)) as [h|] eqn:Ep.
  2:{ injection H as <- <-. split; [left; simpl; tauto|left; reflexivity]. }
  destruct (net n) as [st t html|name code msg] eqn:En.
  2:{ injection H as <- <-. split; [left; apply dev_catch_status|right; split; [reflexivity|]; exists b, (a :: url0), h; repeat split; auto; discriminate]. }
  destruct (dev_ok st) eqn:Eok; simpl negb in H; cbv iota in H.
  2:{ injection H as <- <-. split; [right; exists st, t, html; auto|right; split; [reflexivity|]; exists b, (a :: url0), h; repeat split; auto; discriminate]. }
  destruct (length html <? 100).
  { injection H as <- <-. split; [left; simpl; tauto|right; split; [reflexivity|]; exists b, (a :: url0), h; repeat split; auto; discriminate]. }
  destruct (length (extractTextFromHtml_vercel html) <? 100).
  { injection H as <- <-. split; [left; simpl; tauto|right; split; [reflexivity|]; exists b, (a :: url0), h; repeat split; auto; discriminate]. }
  remember (firstn 15000 (extractTextFromHtml_vercel html)) as L eqn:EL.
  injection H as <- <-. split; [left; simpl; tauto|right; split; [reflexivity|]; exists b, (a :: url0), h; repeat split; auto; discriminate].
Qed.

Lemma dev_handler_status_witness :
  (In 404%N [200; 400; 405; 408; 500]%N
   \/ exists st t html, (fun _ => DevOk 404 (u "Not Found") []) 0 = DevOk st t html
                        /\ dev_ok st = false /\ 404%N = st)
  /\ (1 = 0 \/ (1 = 1 /\ exists b url h,
        req_body (post "https://a.b/" "auto") = Some b /\ body_url b = Some url
        /\ url <> [] /\ parse_http_url url = Some h)).
Proof.
  apply (dev_handler_status (fun _ => DevOk 404 (u "Not Found") []) parse_http_url
           (post "https://a.b/" "auto") 0
           {| dev_status := 404;
              dev_payload := DevError (u "Failed to fetch webpage: 404 Not Found") None |} 1).
  vm_compute. reflexivity.
Defined.

(** ** The Express route of the development file *)

(** For a body with a non-empty URL, [POST /api/scrape-job] fetches once;
    it answers 200 exactly when the response is [ok], with the first 15000
    units of the normalized page, whatever their number (no lower bound),
    and 500 otherwise. *)
Theorem proxy_scrape_job_outcomes net b n url :
  body_url b = Some url -> url <> [] ->
  exists r, proxy_scrape_job net b n = (Ok r, S n)
  /\ (dev_status r = 200%N \/ dev_status r = 500%N)
  /\ (forall st t html, net n = DevOk st t html -> dev_ok st = true ->
        r = {| dev_status := 200;
               dev_payload := DevSuccess (firstn 15000 (extractTextFromHtml_proxy html)) url
                                (length (firstn 15000 (extractTextFromHtml_proxy html))) |})
  /\ (dev_status r = 200%N -> exists st t html, net n = DevOk st t html /\ dev_ok st = true).
Proof.
  intros Hu Hne. unfold proxy_scrape_job. rewrite Hu. destruct url as [|a url0]; [congruence|].
  destruct (net n) as [st t html|name code msg] eqn:En.
  - destruct (dev_ok st) eqn:Eok; simpl negb; cbv iota.
    + eexists. split; [reflexivity|]. split; [left; reflexivity|]. split.
      * intros st' t' html' E _. injection E as <- <- <-. reflexivity.
      * intros _. exists st, t, html. auto.
    + eexists. split; [reflexivity|]. split; [right; reflexivity|]. split.
      * intros st' t' html' E Ok'. injection E as <- <- <-. congruence.
      * simpl. discriminate.
  - eexists. split; [reflexivity|]. split; [right; reflexivity|]. split.
    + intros st' t' html' E. discriminate E.
    + simpl. discriminate.
Qed.

Lemma proxy_scrape_job_outcomes_witness :
  exists r, proxy_scrape_job (serve_dev []) {| body_url := Some (u "https://a.b/");
                                               body_strategy := None |} 0 = (Ok r, 1)
  /\ (dev_status r = 200%N \/ dev_status r = 500%N)
  /\ (forall st t html, serve_dev [] 0 = DevOk st t html -> dev_ok st = true ->
        r = {| dev_status := 200;
               dev_payload := DevSuccess (firstn 15000 (extractTextFromHtml_proxy html))
                                (u "https://a.b/")
                                (length (firstn 15000 (extractTextFromHtml_proxy html))) |})
  /\ (dev_status r = 200%N -> exists st t html, serve_dev [] 0 = DevOk st t html
                                                /\ dev_ok st = true).
Proof.
  apply proxy_scrape_job_outcomes; [reflexivity|discriminate].
Defined.

(** ** [isJobPostingContent] *)

Lemma starts_app_r p : forall s b, starts p s = true -> starts p (s ++ b) = true.
Proof.
  induction p as [|c p IH]; intros [|d s] b H; simpl in *; auto; try discriminate.
  apply andb_true_iff in H as [H1 H2]. rewrite H1, (IH s b H2). reflexivity.
Qed.

Lemma includes_at s p : includes s p = true <-> exists j, starts p (skipn j s) = true.
Proof.
  unfold includes, find_cs. split.
  - destruct (find_with starts p s) as [j|] eqn:E; [|discriminate].
    intros _. exists j. apply (find_with_some _ _ _ _ E).
  - intros [j Hj]. destruct (find_with starts p s) eqn:E; [reflexivity|].
    rewrite (find_with_none _ _ _ E j) in Hj. discriminate.
Qed.

Lemma includes_infix a s b p : includes s p = true -> includes (a ++ s ++ b) p = true.
Proof.
  rewrite !includes_at. intros [j Hj]. exists (length a + j).
  rewrite skipn_app, skipn_all2 by lia. simpl app.
  replace (length a + j - length a) with j by lia.
  rewrite skipn_app.
  destruct (Nat.le_gt_cases j (length s)) as [Hle|Hgt].
  - replace (j - length s) with 0 by lia. simpl skipn at 2. apply starts_app_r, Hj.
  - rewrite (skipn_all2 s) in Hj |- * by lia.
    simpl app. destruct p; [reflexivity|discriminate Hj].
Qed.

Lemma filter_length_mono {A} (f g : A -> bool) :
  (forall x, f x = true -> g x = true) ->
  forall l, length (filter f l) <= length (filter g l).
Proof.
  intros H. induction l as [|x l IH]; simpl; [lia|].
  destruct (f x) eqn:E.
  - rewrite (H x E). simpl. lia.
  - destruct (g x); simpl; lia.
Qed.

Lemma to_lower_app a b : to_lower (a ++ b) = to_lower a ++ to_lower b.
Proof. unfold to_lower. apply flat_map_app. Qed.

(** A text judged a job posting stays one when any text is added before
    or after it: keywords are only ever gained. *)
Theorem isJobPostingContent_mono a s b :
  isJobPostingContent s = true -> isJobPostingContent (a ++ s ++ b) = true.
Proof.
  unfold isJobPostingContent. cbv zeta. intro H.
  apply Nat.leb_le in H. apply Nat.leb_le.
  eapply Nat.le_trans; [exact H|]. apply filter_length_mono.
  intros k Hk. rewrite !to_lower_app. apply includes_infix, Hk.
Qed.

Lemma isJobPostingContent_mono_witness :
  isJobPostingContent (u "Apply: " ++ u "Job role, Skills" ++ u " (remote)") = true.
Proof. apply isJobPostingContent_mono. vm_compute. reflexivity. Defined.

(** ** The registry lookups *)

Lemma existsb_find {A} (f : A -> bool) l :
  existsb f l = true <-> exists x, find f l = Some x.
Proof.
  induction l as [|x l IH]; simpl.
  - split; [discriminate|intros [y E]; discriminate].
  - destruct (f x); simpl; [split; [eauto|reflexivity]|exact IH].
Qed.

(** [SpecializedScraper.canHandle] and the endpoint's
    [hasSpecializedScraper] accept a URL or hostname exactly when the
    corresponding lookup finds a registry entry. *)
Theorem registry_tests_agree parse url h :
  (canHandle parse url = true <-> exists d cfg, getSiteConfig_url parse url = Some (d, cfg))
  /\ (hasSpecializedScraper h = true <-> exists d cfg, getSiteConfig h = Some (d, cfg)).
Proof.
  split.
  - unfold canHandle, getSiteConfig_url, getSiteConfig, SITE_CONFIGS.
    destruct (parse url) as [h'|].
    + rewrite existsb_find. split.
      * intros [[d cfg] E]. eauto.
      * intros (d & cfg & E). eauto.
    + split; [discriminate|intros (d & cfg & E); discriminate].
  - unfold hasSpecializedScraper, getSiteConfig. rewrite existsb_find. split.
    + intros [[d cfg] E]. eauto.
    + intros (d & cfg & E). eauto.
Qed.

(** ** The advanced endpoint *)

Lemma basicScrape_count net url n : snd (basicScrape net url n) = S n.
Proof.
  unfold basicScrape, try_catch, bind, fetch.
  destruct (net n) as [st body| |]; simpl; try reflexivity.
  destruct ((200 <=? st) && (st <=? 299))%N; reflexivity.
Qed.

Lemma targetedScrape_count net parse url h n : snd (targetedScrape net parse url h n) = S n.
Proof.
  pose proof (basicScrape_count net url n) as Hc.
  unfold targetedScrape, try_catch, bind.
  destruct (basicScrape net url n) as [[r|e] n1]; simpl in Hc; subst n1; [|reflexivity].
  destruct r as [[|c t]|]; [reflexivity| |reflexivity].
  unfold ret. destruct (extractSpecializedContent parse (c :: t) url) as [[cs m]|];
    [destruct (200 <? length cs)|]; reflexivity.
Qed.

Lemma dispatch_count net parse s url h n :
  S n <= snd (dispatch net parse s url h n) <= S (S n).
Proof.
  unfold dispatch, bind.
  destruct (str_eqb s (u "basic")).
  { pose proof (basicScrape_count net url n) as Hc.
    destruct (basicScrape net url n) as [[r|e] n1]; simpl in *; lia. }
  destruct (str_eqb s (u "targeted")).
  { pose proof (targetedScrape_count net parse url h n) as Hc.
    destruct (targetedScrape net parse url h n) as [[r|e] n1]; simpl in *; lia. }
  pose proof (targetedScrape_count net parse url h n) as Hc.
  destruct (targetedScrape net parse url h n) as [[r|e] n1]; simpl in Hc; subst n1; [|simpl; lia].
  destruct r as [t|].
  - destruct (length t <? 200).
    + pose proof (basicScrape_count net url (S n)) as Hb.
      destruct (basicScrape net url (S n)) as [[r|e] n2]; simpl in *; lia.
    + simpl. lia.
  - pose proof (basicScrape_count net url (S n)) as Hb.
    destruct (basicScrape net url (S n)) as [[r|e] n2]; simpl in *; lia.
Qed.

(** [basicScrape] and [targetedScrape] each fetch exactly once, and the
    endpoint fetches at most twice per request (twice only when [auto]
    falls back). *)
Theorem scrape_fetch_counts :
  (forall net url n, snd (basicScrape net url n) = S n)
  /\ (forall net parse url h n, snd (targetedScrape net parse url h n) = S n)
  /\ (forall net parse req n, snd (handler net parse req n) <= S (S n)).
Proof.
  split; [exact basicScrape_count|]. split; [exact targetedScrape_count|].
  intros net parse req n. unfold handler.
  destruct (str_eqb (req_method req) (u "OPTIONS")); [simpl; lia|].
  destruct (negb (str_eqb (req_method req) (u "POST"))); [simpl; lia|].
  unfold try_catch, handler_try, bind.
  destruct (req_body req) as [b|]; [|simpl; lia].
  unfold ret at 1. cbv beta iota.
  destruct (body_url b) as [[|c url]|]; [simpl; lia| |simpl; lia].
  destruct (parse (c :: url)) as [h|]; [|simpl; lia].
  pose proof (dispatch_count net parse (strategy_of b) (c :: url) h n) as Hd.
  destruct (dispatch net parse (strategy_of b) (c :: url) h n) as [[[co m]|e] n1].
  - simpl in *. lia.
  - simpl in Hd |- *. destruct e; simpl; lia.
Qed.

Lemma handler_try_body net parse req n b :
  req_body req = Some b -> exists resp n', handler_try net parse req n = (Ok resp, n').
Proof.
  intros Hb. unfold handler_try, bind. rewrite Hb. unfold ret at 1. cbv beta iota.
  destruct (body_url b) as [[|c url]|]; [do 2 eexists; reflexivity| |do 2 eexists; reflexivity].
  destruct (parse (c :: url)) as [h|]; [|do 2 eexists; reflexivity].
  destruct (dispatch_total net parse (strategy_of b) (c :: url) h n) as (r & n1 & ->).
  destruct r as [co m]. do 2 eexists; reflexivity.
Qed.


(** The endpoint answers 200, 400, 405 or 500; 405 exactly to a method
    other than OPTIONS and POST, and 500 exactly to a POST without a
    body. *)
Theorem handler_status_classes net parse req n r n' :
  handler net parse req n = (Ok r, n') ->
  In (status r) [200; 400; 405; 500]%N
  /\ (status r = 405%N <-> str_eqb (req_method req) (u "OPTIONS") = false
                          /\ str_eqb (req_method req) (u "POST") = false)
  /\ (status r = 500%N <-> str_eqb (req_method req) (u "POST") = true /\ req_body req = None).
Proof.
  unfold handler. intro H.
  destruct (str_eqb (req_method req) (u "OPTIONS")) eqn:Eo.
  { injection H as <- _. assert (Ep : str_eqb (req_method req) (u "POST") = false).
    { apply str_eqb_true in Eo. rewrite Eo. vm_compute. reflexivity. }
    rewrite Ep. simpl. split; [tauto|]. split; split; intro X; try discriminate;
    destruct X; discriminate. }
  destruct (str_eqb (req_method req) (u "POST")) eqn:Ep; cbv [negb] in H; cbv beta iota in H.
  2:{ injection H as <- _. simpl. split; [tauto|]. split; split; intro X; try discriminate;
      auto; destruct X; discriminate. }
  unfold try_catch in H. cbv beta iota in H.
  destruct (req_body req) as [b|] eqn:Eb.
  - destruct (handler_try_body net parse req n b Eb) as (resp & n1 & E).
    rewrite E in H. injection H as <- _.
    destruct (handler_try_status _ _ _ _ _ _ E) as [-> | ->]; simpl;
      (split; [tauto|]); split; split; intro X; try discriminate; destruct X; discriminate.
  - unfold handler_try, bind in H. rewrite Eb in H. simpl in H.
    injection H as <- _. simpl. split; [tauto|]. split; split; intro X; auto; try discriminate.
    destruct X; discriminate.
Qed.

Lemma handler_status_classes_witness :
  In 500%N [200; 400; 405; 500]%N
  /\ (500%N = 405%N <-> str_eqb (u "POST") (u "OPTIONS") = false
                        /\ str_eqb (u "POST") (u "POST") = false)
  /\ (500%N = 500%N <-> str_eqb (u "POST") (u "POST") = true /\ @None Body = None).
Proof.
  apply (handler_status_classes (serve []) parse_http_url
           {| req_method := u "POST"; req_body := None |} 0
           {| status := 500;
              payload := PError (u "Failed to scrape webpage") None
                                (Some (error_message TypeError)) |} 0).
  vm_compute. reflexivity.
Defined.






(** [targetedScrape] gives [null] exactly when [basicScrape] gives [null]
    or the empty text; any other text of [basicScrape] gives some
    content. *)
Theorem targetedScrape_none net parse url h n :
  fst (targetedScrape net parse url h n) = Ok None
  <-> fst (basicScrape net url n) = Ok None \/ fst (basicScrape net url n) = Ok (Some []).
Proof.
  destruct (basicScrape_total net url n) as (r & n1 & Eb).
  unfold targetedScrape, try_catch, bind. rewrite Eb. simpl.
  destruct r as [[|c t]|].
  - simpl. split; auto.
  - unfold ret. destruct (extractSpecializedContent parse (c :: t) url) as [[cs m]|];
      [destruct (200 <? length cs)|]; simpl; split; intro X;
      try discriminate; destruct X as [X|X]; discriminate.
  - simpl. split; auto.
Qed.

(** In the endpoint, a strategy other than [basic] and [targeted] (the
    default [auto] or any unknown one) keeps the targeted text when it has
    at least 200 units: the response is that text finished with the
    targeted method tag, after the single fetch of [targetedScrape]. *)
Theorem auto_keeps_targeted net parse req n b url host x n1 :
  str_eqb (req_method req) (u "POST") = true -> req_body req = Some b ->
  body_url b = Some url -> url <> [] -> parse url = Some host ->
  str_eqb (strategy_of b) (u "basic") = false ->
  str_eqb (strategy_of b) (u "targeted") = false ->
  targetedScrape net parse url host n = (Ok (Some x), n1) -> 200 <= length x ->
  handler net parse req n = (Ok (finish url host (Some x) (targeted_tag host)), n1).
Proof.
  intros Hp Hb Hu Hne Hh Hs1 Hs2 Ht Hl.
  assert (Ho : str_eqb (req_method req) (u "OPTIONS") = false).
  { apply str_eqb_true in Hp. rewrite Hp. exact str_eqb_post_options. }
  unfold handler. rewrite Ho, Hp.
  unfold try_catch, handler_try, bind. rewrite Hb. cbv [negb ret]. cbv beta iota.
  rewrite Hu. destruct url as [|c0 url]; [contradiction|].
  rewrite Hh. unfold dispatch. rewrite Hs1, Hs2. unfold bind. rewrite Ht.
  assert (El : (length x <? 200) = false) by (apply Nat.ltb_ge; exact Hl).
  rewrite El. reflexivity.
Qed.

Lemma auto_keeps_targeted_witness :
  handler (serve google_page) parse_http_url (post "https://careers.google.com/jobs/1" "auto") 0
  = (Ok (finish (u "https://careers.google.com/jobs/1") (u "careers.google.com")
                (Some (extractTextFromHtml google_page))
                (targeted_tag (u "careers.google.com"))), 1).
Proof.
  apply (auto_keeps_targeted (serve google_page) parse_http_url
           (post "https://careers.google.com/jobs/1" "auto") 0
           {| body_url := Some (u "https://careers.google.com/jobs/1");
              body_strategy := Some (u "auto") |}
           (u "https://careers.google.com/jobs/1") (u "careers.google.com")
           (extractTextFromHtml google_page) 1);
    try (vm_compute; reflexivity).
  - discriminate.
  - apply Nat.leb_le. vm_compute. reflexivity.
Defined.

(** No registry entry shadows another: each supported domain, looked up
    as a hostname, bare or with a [www.] prefix, finds its own entry, whose
    company is the one [getSupportedSites] lists. *)
Theorem registry_self_lookup d comp :
  In (d, comp) getSupportedSites ->
  exists cfg, getSiteConfig d = Some (d, cfg)
              /\ getSiteConfig (u "www." ++ d) = Some (d, cfg)
              /\ company cfg = comp.
Proof.
  unfold getSupportedSites. intro H. apply in_map_iff in H.
  destruct H as ([d' cfg] & E & Hin). injection E as <- <-.
  exists cfg. unfold SITE_CONFIGS, SPECIALIZED_CONFIGS in Hin.
  repeat (destruct Hin as [Hin|Hin];
          [injection Hin as <- <-; split; [|split]; vm_compute; reflexivity|]).
  contradiction.
Qed.

Lemma registry_self_lookup_witness :
  exists cfg, getSiteConfig (u "careers.google.com") = Some (u "careers.google.com", cfg)
              /\ getSiteConfig (u "www." ++ u "careers.google.com")
                 = Some (u "careers.google.com", cfg)
              /\ company cfg = u "Google".
Proof.
  apply registry_self_lookup. vm_compute. auto 20.
Defined.
